(** * Inventory / sales summary pipeline of [inventory_app.py]

    A shallow embedding of the pipeline of [src/inventory_app.py.py]:
    the tabular loader [read_file], the two aggregations
    ([df_sales_grouped], [df_inv_grouped]), the merge, the derived
    columns, the final sort and the row styling [highlight_low_ratio].

    Numbers.  pandas holds the quantity columns as 64-bit integers or
    binary64 floats.  The pipeline as a whole (coercion, aggregation,
    merge, derived columns, sort and styling) is modelled on rationals [Q]
    with exact arithmetic: there a missing value is [None], as [fillna]
    sees it, and rounding to an integer ([np.rint]) and the cast
    [astype(int)] are written out on rationals.  What depends on the
    arithmetic of the 64-bit columns, the forecast and the ratio of
    step 4, is modelled a second time, row by row, on [int64] and
    binary64 numbers with their rounding, wrap-around, infinities and the
    exception of the cast ([score64]).

    Library calls.  [pd.to_numeric], [groupby(...).agg('sum')],
    [pd.merge], [Series.round], [astype(int)] and [sort_values] are
    modelled in the modules [np] and [pd] after their documented
    behaviour; the text-to-number parser and the file codecs are
    parameters. *)

From Stdlib Require Import ZArith QArith Qround Qabs Qreduction Qpower.
From Stdlib Require Import List String Ascii Bool.
From Stdlib Require Import Lia Lqa Permutation Sorted OrderedTypeEx.
From Stdlib Require Import Strings.Byte.
Import ListNotations.

Local Open Scope Q_scope.

(* ================================================================= *)
(** ** Numeric library *)

Module np.

(** Strict comparison of two numbers, as a boolean. *)
Definition ltb (x y : Q) : bool :=
  match Qcompare x y with Lt => true | _ => false end.

(** [np.rint]: nearest integer, a tie goes to the even neighbour. *)
Definition rint (x : Q) : Z :=
  let f := Qfloor x in
  match Qcompare (x - inject_Z f) (1 # 2) with
  | Lt => f
  | Gt => (f + 1)%Z
  | Eq => if Z.even f then f else (f + 1)%Z
  end.

(** [10 ** decimals] *)
Definition pow10 (decimals : nat) : Q := inject_Z (10 ^ Z.of_nat decimals).

(** [ndarray.round(decimals)]: scale, [rint], scale back. *)
Definition round (decimals : nat) (x : Q) : Q :=
  inject_Z (rint (x * pow10 decimals)) / pow10 decimals.

(** [np.where(cond, a, b)] at one position. *)
Definition where_ {A : Type} (cond : bool) (a b : A) : A :=
  if cond then a else b.

End np.

(* ================================================================= *)
(** ** Data-frame library *)

(** A cell of a raw table, as the loader hands it over. *)
Inductive cell : Type :=
| CNum (q : Q)          (* a cell of a numeric column *)
| CText (s : string)    (* a cell of an object column *)
| CMissing.             (* an empty cell (NaN / None) *)

(** Lexicographic order on pairs of keys. *)
Definition cmp_pair {A B : Type}
    (ca : A -> A -> comparison) (cb : B -> B -> comparison)
    (x y : A * B) : comparison :=
  match ca (fst x) (fst y) with
  | Eq => cb (snd x) (snd y)
  | c => c
  end.

(** What the order of group keys has to satisfy. *)
Class KeyOrder {K : Type} (cmp : K -> K -> comparison) : Prop := {
  cmp_eq : forall a b, cmp a b = Eq <-> a = b;
  cmp_antisym : forall a b, cmp a b = CompOpp (cmp b a);
  cmp_trans : forall a b c, cmp a b = Lt -> cmp b c = Lt -> cmp a c = Lt
}.

Module pd.

(** [pd.to_numeric(col, errors='coerce')] at one cell: a number stays,
    a text is parsed, and what cannot be read is NaN ([None]). *)
Definition to_numeric (parse : string -> option Q) (c : cell) : option Q :=
  match c with
  | CNum q => Some q
  | CText s => parse s
  | CMissing => None
  end.

(** [Series.fillna(v)] at one cell. *)
Definition fillna (v : Q) (x : option Q) : Q :=
  match x with Some q => q | None => v end.

(** [astype(int)] on a float: truncation towards zero (the range of
    [int64] is in [astype_int64]). *)
Definition astype_int (x : Q) : Z := Z.quot (Qnum x) (Zpos (Qden x)).

(** [Series.round(decimals)] *)
Definition round (decimals : nat) (x : Q) : Q := np.round decimals x.

Section GroupBy.
Context {K V : Type}.
Variable cmp : K -> K -> comparison.
Variable add : V -> V -> V.

(** One row enters the table of groups: its value is added to the
    group of its key, or a new group is opened at the key's place in
    the order of keys. *)
Fixpoint agg_insert (k : K) (v : V) (groups : list (K * V)) : list (K * V) :=
  match groups with
  | [] => [(k, v)]
  | (k', v') :: rest =>
      match cmp k k' with
      | Eq => (k', add v' v) :: rest
      | Lt => (k, v) :: (k', v') :: rest
      | Gt => (k', v') :: agg_insert k v rest
      end
  end.

(** A row with a missing key belongs to no group. *)
Definition groupby_step (groups : list (K * V)) (row : option K * V)
  : list (K * V) :=
  match fst row with
  | Some k => agg_insert k (snd row) groups
  | None => groups
  end.

(** [df.groupby(keys, as_index=False).agg('sum')]: one row per key, keys
    in ascending order ([sort=True]), rows with a missing key left out
    ([dropna=True]), values summed in row order. *)
Definition groupby_sum (rows : list (option K * V)) : list (K * V) :=
  fold_left groupby_step rows [].
End GroupBy.

Section Merge.
Context {L R K J : Type}.
Variable eqb : K -> K -> bool.
Variable left_on : L -> K.
Variable right_on : R -> K.
Variable join : L -> option R -> J.

(** [pd.merge(left, right, on=keys, how='left')]: every left row, in the
    order of [left], once per right row with the same key, and once
    with the right columns missing when there is none. *)
Definition merge_left (left : list L) (right : list R) : list J :=
  flat_map
    (fun l =>
       match filter (fun r => eqb (left_on l) (right_on r)) right with
       | [] => [join l None]
       | matches => map (fun r => join l (Some r)) matches
       end)
    left.
End Merge.

Section SortValues.
Context {A : Type}.
(** [before x y]: [x] must come strictly before [y]. *)
Variable before : A -> A -> bool.

Fixpoint insert_sorted (x : A) (l : list A) : list A :=
  match l with
  | [] => [x]
  | y :: rest =>
      if before y x then y :: insert_sorted x rest
      else x :: y :: rest
  end.

(** [df.sort_values(by=[...], ascending=[...])] on several columns:
    the lexicographic sort of pandas keeps the rows of equal keys in
    their order.  Rows are inserted from the last to the first, each
    one behind the rows that must come strictly before it only. *)
Definition sort_values (l : list A) : list A :=
  fold_right insert_sorted [] l.

(** [x] may stand in front of [y]: [y] need not come strictly before
    [x]. *)
Definition may_precede (x y : A) : Prop := before y x = false.
End SortValues.

End pd.

(* ================================================================= *)
(** ** Tabular loader: [read_file] *)

(** A call either returns or raises. *)
Inductive result (A : Type) : Type :=
| Return (a : A)
| Raise.
Arguments Return {A} a.
Arguments Raise {A}.

Inductive encoding : Type := utf_8 | gbk | utf_16.

(** An uploaded file: its name, its bytes and the read cursor. *)
Record UploadedFile : Type := mkFile {
  name : string;
  data : list byte;
  pos : nat
}.

(** [file.read()]: the bytes from the cursor on; the cursor ends up at the
    end of the file. *)
Definition read (f : UploadedFile) : list byte * UploadedFile :=
  (skipn (pos f) (data f), mkFile (name f) (data f) (List.length (data f))).

(** [file.seek(n)] *)
Definition seek (n : nat) (f : UploadedFile) : UploadedFile :=
  mkFile (name f) (data f) n.

(** [s.endswith(suffix)] *)
Definition endswith (s suffix : string) : bool :=
  let n := String.length s in
  let m := String.length suffix in
  (m <=? n)%nat && String.eqb (substring (n - m) m s) suffix.

(** The encodings of the loop of [read_file], in its order. *)
Definition encodings : list encoding := [utf_8; gbk; utf_16].

Section Loader.
Variable Table : Type.
(** [pd.read_excel(file)]: consumes the file, may raise. *)
Variable read_excel : UploadedFile -> result Table * UploadedFile.
(** [pd.read_csv(io.BytesIO(content), encoding=enc)]: may raise. *)
Variable read_csv : list byte -> encoding -> result Table.

(** The loop [for enc in [...]: try: return read_csv(...) except: continue],
    followed by [return None]. *)
Fixpoint try_encodings (content : list byte) (encs : list encoding)
  : option Table :=
  match encs with
  | [] => None
  | enc :: rest =>
      match read_csv content enc with
      | Return t => Some t
      | Raise => try_encodings content rest
      end
  end.

Definition read_file (file : option UploadedFile)
  : result (option Table) * option UploadedFile :=
  match file with
  | None => (Return None, None)
  | Some f =>
      if endswith (name f) ".xlsx" || endswith (name f) ".xls" then
        let (r, f') := read_excel f in
        (match r with Return t => Return (Some t) | Raise => Raise end,
         Some f')
      else
        let (content, f1) := read f in
        let f2 := seek 0 f1 in
        (Return (try_encodings content encodings), Some f2)
  end.
End Loader.

(* ================================================================= *)
(** ** Tables of the pipeline *)

(** A row of the sales table restricted to [sales_cols]
    (product name, SKU, country, sales quantity).  The key columns hold
    a text or are empty. *)
Record SalesRecord : Type := mkSales {
  s_name : cell;
  s_sku : option string;
  s_country : option string;
  s_qty : cell
}.

(** A row of the stock table restricted to [inv_target]
    (product name, SKU, country/region, FBA stock, inbound, in transit). *)
Record StockRecord : Type := mkStock {
  i_name : option string;
  i_sku : option string;
  i_country : option string;
  i_fba : cell;
  i_inbound : cell;
  i_transit : cell
}.

(** A row of [df_sales_grouped]. *)
Record AggregatedSales : Type := mkAggSales {
  gs_country : string;
  gs_sku : string;
  gs_sales : Q                (* trailing-30-day sales *)
}.

(** A row of [df_inv_grouped]. *)
Record AggregatedStock : Type := mkAggStock {
  gi_country : string;
  gi_name : string;
  gi_sku : string;
  gi_fba : Q;
  gi_transit_total : Q
}.

(** A row of the merged table, before the derived columns. *)
Record Joined : Type := mkJoined {
  j_country : string;
  j_name : string;
  j_sku : string;
  j_fba : Q;
  j_transit_total : Q;
  j_sales : option Q          (* missing when no sales row matched *)
}.

(** A row of [final_df], in the order of [display_cols]. *)
Record SummaryRow : Type := mkSummary {
  country : string;
  product_name : string;
  sku : string;
  fba_stock : Z;
  transit_total : Z;
  sales_30d : Z;
  forecast_30d : Z;
  ratio : Q
}.

Definition display_cols : list string :=
  ["国家"; "品名"; "SKU"; "FBA库存"; "在途总计"; "过去30天总销量";
   "未来30天预估销量"; "库销比"]%string.

(** Order of the key columns: strings compare by their bytes. *)
Definition key2 : Type := (string * string)%type.
Definition key3 : Type := (string * string * string)%type.
Definition cmp_key2 : key2 -> key2 -> comparison :=
  cmp_pair String.compare String.compare.
Definition cmp_key3 : key3 -> key3 -> comparison :=
  cmp_pair cmp_key2 String.compare.
Definition eqb_key2 (x y : key2) : bool :=
  String.eqb (fst x) (fst y) && String.eqb (snd x) (snd y).

(** A group key exists when none of its cells is empty. *)
Definition some_key2 (a b : option string) : option key2 :=
  match a, b with
  | Some x, Some y => Some (x, y)
  | _, _ => None
  end.
Definition some_key3 (a b c : option string) : option key3 :=
  match some_key2 a b, c with
  | Some k, Some z => Some (k, z)
  | _, _ => None
  end.

(* ================================================================= *)
(** ** The pipeline (steps 1 to 5 of the script) *)

Section Pipeline.
(** The reader of numbers in texts used by [pd.to_numeric]. *)
Variable parse : string -> option Q.
(** The slider value. *)
Variable growth_factor : Q.

(** [pd.to_numeric(col, errors='coerce').fillna(0)] at one cell and on a
    column. *)
Definition coerce (c : cell) : Q := pd.fillna 0 (pd.to_numeric parse c).
Definition coerce_column (col : list cell) : list Q := map coerce col.

(** A cell is non-numeric when [pd.to_numeric] cannot read it: an empty
    cell, or a text the parser rejects. *)
Definition non_numeric (c : cell) : Prop := pd.to_numeric parse c = None.

(** *** Step 1: sales table *)

(** Key and coerced quantity of a sales row; the product name is
    selected by [sales_cols] but is not a key and is not aggregated. *)
Definition df_sales (raw : list SalesRecord) : list (option key2 * Q) :=
  map (fun r => (some_key2 (s_country r) (s_sku r), coerce (s_qty r))) raw.

Definition df_sales_grouped (raw : list SalesRecord) : list AggregatedSales :=
  map (fun g => mkAggSales (fst (fst g)) (snd (fst g)) (snd g))
      (pd.groupby_sum cmp_key2 Qplus (df_sales raw)).

(** *** Step 2: stock table *)

(** Key, coerced FBA stock and in-transit total of a stock row. *)
Definition df_inv (raw : list StockRecord) : list (option key3 * (Q * Q)) :=
  map (fun r =>
         let fba := coerce (i_fba r) in
         let inbound := coerce (i_inbound r) in
         let transit := coerce (i_transit r) in
         (some_key3 (i_country r) (i_name r) (i_sku r),
          (fba, inbound + transit)))
      raw.

Definition add2 (a b : Q * Q) : Q * Q := (fst a + fst b, snd a + snd b).

Definition df_inv_grouped (raw : list StockRecord) : list AggregatedStock :=
  map (fun g =>
         mkAggStock (fst (fst (fst g))) (snd (fst (fst g))) (snd (fst g))
                    (fst (snd g)) (snd (snd g)))
      (pd.groupby_sum cmp_key3 add2 (df_inv raw)).

(** *** Step 3: merge *)

Definition inv_on (l : AggregatedStock) : key2 := (gi_country l, gi_sku l).
Definition sales_on (r : AggregatedSales) : key2 := (gs_country r, gs_sku r).

Definition join (l : AggregatedStock) (r : option AggregatedSales) : Joined :=
  mkJoined (gi_country l) (gi_name l) (gi_sku l) (gi_fba l)
           (gi_transit_total l) (option_map gs_sales r).

(** [pd.merge(df_inv_grouped, df_sales_grouped, on=[country, SKU],
    how='left')] *)
Definition merged (inv : list StockRecord) (sales : list SalesRecord)
  : list Joined :=
  pd.merge_left eqb_key2 inv_on sales_on join
                (df_inv_grouped inv) (df_sales_grouped sales).

(** The sales row, if any, that the merge attaches to a stock row. *)
Definition matching_sales (sales : list SalesRecord) (l : AggregatedStock)
  : option AggregatedSales :=
  find (fun r => eqb_key2 (inv_on l) (sales_on r))
       (df_sales_grouped sales).

(** *** Step 4: derived columns, row by row *)

(** The sales column after [fillna(0)]. *)
Definition sales_filled (j : Joined) : Q := pd.fillna 0 (j_sales j).

(** [(sales * growth_factor).round(0).astype(int)] *)
Definition forecast (j : Joined) : Z :=
  pd.astype_int (pd.round 0 (sales_filled j * growth_factor)).

(** [np.where(sales > 0, (fba + transit) / sales, 99.0)] *)
Definition ratio_raw (j : Joined) : Q :=
  np.where_ (np.ltb 0 (sales_filled j))
            ((j_fba j + j_transit_total j) / sales_filled j)
            99.

(** [.astype(float).round(1)] *)
Definition ratio_rounded (j : Joined) : Q := pd.round 1 (ratio_raw j).

(** The row after the casts of [int_cols] and the selection of
    [display_cols]. *)
Definition score (j : Joined) : SummaryRow :=
  mkSummary (j_country j) (j_name j) (j_sku j)
            (pd.astype_int (j_fba j))
            (pd.astype_int (j_transit_total j))
            (pd.astype_int (sales_filled j))
            (forecast j)
            (ratio_rounded j).

(** Sort key [by=[ratio, sales], ascending=[True, False]]. *)
Definition before (x y : SummaryRow) : bool :=
  np.ltb (ratio x) (ratio y)
  || (Qeq_bool (ratio x) (ratio y) && (sales_30d y <? sales_30d x)%Z).

Definition final_df (inv : list StockRecord) (sales : list SalesRecord)
  : list SummaryRow :=
  pd.sort_values before (map score (merged inv sales)).

End Pipeline.

(* ================================================================= *)
(** ** Step 5: row styling *)

Definition highlight : string :=
  "background-color: #FF0000; color: #FFFF00; font-weight: bold;".
Definition default : string := EmptyString.

(** [len(row)] *)
Definition len (row : SummaryRow) : nat := List.length display_cols.

(** The condition of [highlight_low_ratio]. *)
Definition high_risk (row : SummaryRow) : bool :=
  np.ltb (ratio row) 2 && (0 <? sales_30d row)%Z.

Definition highlight_low_ratio (row : SummaryRow) : list string :=
  if high_risk row then repeat highlight (len row)
  else repeat default (len row).

(** [final_df.style.apply(highlight_low_ratio, axis=1)]: every row with
    its styles. *)
Definition styled_df (df : list SummaryRow) : list (SummaryRow * list string) :=
  map (fun row => (row, highlight_low_ratio row)) df.

(* ================================================================= *)
(** ** Notions used by the properties *)

(** Keys of the rows of the tables. *)
Definition inv_key3 (l : AggregatedStock) : key3 :=
  (gi_country l, gi_name l, gi_sku l).
Definition row_key3 (r : SummaryRow) : key3 := (country r, product_name r, sku r).
Definition row_key2 (r : SummaryRow) : key2 := (country r, sku r).

(** [ordered x y]: the sort order allows [x] in front of [y], that is a
    lower ratio first and, at equal ratios, higher sales first. *)
Definition ordered (x y : SummaryRow) : Prop :=
  ratio x < ratio y \/ (ratio x == ratio y /\ (sales_30d y <= sales_30d x)%Z).

(** The rows whose two sort keys are [q] and [s]. *)
Definition same_keys (q : Q) (s : Z) (r : SummaryRow) : bool :=
  Qeq_bool (ratio r) q && (sales_30d r =? s)%Z.

(** A whole number. *)
Definition whole (x : Q) : Prop := x == inject_Z (pd.astype_int x).

(** The merged row holds whole quantities only. *)
Definition whole_row (j : Joined) : Prop :=
  whole (j_fba j) /\ whole (j_transit_total j) /\ whole (sales_filled j).

(** A sales row without its product name. *)
Definition sales_without_name (r : SalesRecord)
  : option string * option string * cell :=
  (s_sku r, s_country r, s_qty r).

(** A parser that reads no text at all, for the examples. *)
Definition parse_nothing (s : string) : option Q := None.

(** The rows of the end-to-end examples: stock (US, SKU1, FBA 15,
    inbound 0, in transit 5) with sales 10, and a stock row (US, SKU2)
    without sales. *)
Definition example_stock : list StockRecord :=
  [mkStock (Some "A") (Some "SKU1") (Some "US") (CNum 15) (CNum 0) (CNum 5)]%string.
Definition example_sales : list SalesRecord :=
  [mkSales (CText "A") (Some "SKU1") (Some "US") (CNum 10)]%string.
Definition example_row : SummaryRow :=
  mkSummary "US" "A" "SKU1" 15 5 10 10 2.0.
Definition example_stock_only : AggregatedStock :=
  mkAggStock "US" "B" "SKU2" 7 0.
Definition example_stock2 : list StockRecord :=
  example_stock
  ++ [mkStock (Some "B") (Some "SKU2") (Some "US") (CNum 7) (CNum 0) (CNum 0)]%string.

(** A text codec under which only GBK decodes, for the examples. *)
Definition gbk_only (content : list byte) (enc : encoding) : result nat :=
  match enc with
  | gbk => Return 1%nat
  | _ => Raise
  end.

(** The example sales table with another product name. *)
Definition example_sales_renamed : list SalesRecord :=
  [mkSales (CText "Z") (Some "SKU1") (Some "US") (CNum 10)]%string.

(* ================================================================= *)
(** ** The script body: loading, pipeline and rendering *)

(** What the script puts on the page below the upload widgets. *)
Module st.
Inductive widget (Blob : Type) : Type :=
| success                                                  (* [st.success] *)
| dataframe (styled : list (SummaryRow * list string))     (* [st.dataframe] *)
| download_button (blob : Blob) (file_name : string) (* [st.download_button] *)
| error.                                                   (* [st.error] *)
Arguments success {Blob}.
Arguments dataframe {Blob} styled.
Arguments download_button {Blob} blob file_name.
Arguments error {Blob}.
End st.

Section Script.
Variable Table : Type.
Variable Blob : Type.
Variable read_excel : UploadedFile -> result Table * UploadedFile.
Variable read_csv : list byte -> encoding -> result Table.
(** [df_sales_raw[sales_cols]] and [df_inv_raw[inv_target]]: the rows of
    the selected columns; they raise when a column is absent. *)
Variable select_sales : Table -> result (list SalesRecord).
Variable select_inv : Table -> result (list StockRecord).
(** [final_df.to_excel(output, index=False)] followed by
    [output.getvalue()]. *)
Variable to_excel : list SummaryRow -> result Blob.
Variable parse : string -> option Q.
Variable growth_factor : Q.

(** The body of the [try] with its [except Exception] handler: what is
    put on the page before an exception stays there, and the handler adds
    the error banner. *)
Definition report (df_inv_raw df_sales_raw : Table) : list (st.widget Blob) :=
  match select_sales df_sales_raw with
  | Raise => [st.error]
  | Return sales =>
      match select_inv df_inv_raw with
      | Raise => [st.error]
      | Return inv =>
          let final := final_df parse growth_factor inv sales in
          st.success
            :: st.dataframe (styled_df final)
            :: match to_excel final with
               | Return blob =>
                   [st.download_button
                      blob "Amazon_Inventory_Sales_Summary.xlsx"]
               | Raise => [st.error]
               end
      end
  end.

(** [if inv_file and sales_file: ...]: both files are loaded, the stock
    file first, outside of the [try]; the pipeline runs when neither load
    returned null.  [Raise] is an exception that leaves the script. *)
Definition script (inv_file sales_file : option UploadedFile)
  : result (list (st.widget Blob)) :=
  match inv_file, sales_file with
  | Some _, Some _ =>
      match fst (read_file Table read_excel read_csv inv_file) with
      | Raise => Raise
      | Return df_inv_raw =>
          match fst (read_file Table read_excel read_csv sales_file) with
          | Raise => Raise
          | Return df_sales_raw =>
              match df_inv_raw, df_sales_raw with
              | Some i, Some s => Return (report i s)
              | _, _ => Return []
              end
          end
      end
  | _, _ => Return []
  end.
End Script.

(** A text file that none of the encodings decodes. *)
Definition undecodable {Table : Type}
    (read_csv : list byte -> encoding -> result Table) (f : UploadedFile)
  : Prop :=
  endswith (name f) ".xlsx" = false
  /\ endswith (name f) ".xls" = false
  /\ forall enc, read_csv (skipn (pos f) (data f)) enc = Raise.

(** A codec that decodes nothing, for the examples. *)
Definition decode_nothing (content : list byte) (enc : encoding)
  : result nat := Raise.

(* ================================================================= *)
(** ** 64-bit numbers *)

(** The columns of the tables hold 64-bit integers or binary64 floats.
    The derived columns of step 4 are modelled a second time on these
    numbers for what depends on their arithmetic.  Lines 79 to 93 work
    on whole columns, one position at a time, so the rows of the final
    table of a completed run are the rows [score64] returns on the rows
    of the merged table, and the run raises when [score64] raises on one
    of them. *)

Module i64.
Definition min : Z := (- 2 ^ 63)%Z.
Definition max : Z := (2 ^ 63 - 1)%Z.
Definition in_range (z : Z) : bool := ((min <=? z) && (z <=? max))%Z.
(** Addition of [int64] columns wraps around. *)
Definition wrap (z : Z) : Z := ((z + 2 ^ 63) mod 2 ^ 64 - 2 ^ 63)%Z.
End i64.

Module f64.

(** A binary64 float by its value: a finite float is the rational it
    stands for (the two zeros are not told apart), beside the infinities
    and NaN. *)
Inductive t : Type :=
| fin (q : Q)
| inf (negative : bool)
| nan.

Definition pow2 (e : Z) : Q := Qpower 2 e.

(** [floor (log2 |x|)] for [x <> 0]. *)
Definition ilog2 (x : Q) : Z :=
  let k := (Z.log2 (Z.abs (Qnum x)) - Z.log2 (Zpos (Qden x)))%Z in
  if Qle_bool (pow2 k) (Qabs x) then k else (k - 1)%Z.

(** The exponent of the last mantissa bit of the binary64 numbers around
    [x]: 53 bits of mantissa, and not below the subnormal numbers. *)
Definition ulp_exp (x : Q) : Z := Z.max (ilog2 x - 52) (-1074).

(** Rounding to the nearest binary64, ties to the even mantissa; the
    exponent is not bounded from above here, see [round]. *)
Definition RN (x : Q) : Q :=
  let y := Qred x in
  if Qeq_bool y 0 then 0
  else
    let e := ulp_exp y in
    Qred (inject_Z (np.rint (y * pow2 (- e))) * pow2 e).

(** The float that an exact result [x] is rounded to; from [2 ^ 1024] on
    it is an infinity. *)
Definition round (x : Q) : t :=
  let y := RN x in
  if Qle_bool (pow2 1024) (Qabs y) then inf (np.ltb y 0) else fin y.

Definition add (a b : t) : t :=
  match a, b with
  | fin x, fin y => round (x + y)
  | fin _, inf s | inf s, fin _ => inf s
  | inf s, inf s' => if Bool.eqb s s' then inf s else nan
  | _, _ => nan
  end.

Definition mul (a b : t) : t :=
  match a, b with
  | fin x, fin y => round (x * y)
  | fin x, inf s | inf s, fin x =>
      if Qeq_bool x 0 then nan else inf (xorb s (np.ltb x 0))
  | inf s, inf s' => inf (xorb s s')
  | _, _ => nan
  end.

(** Division; a zero divisor is taken as the positive zero. *)
Definition div (a b : t) : t :=
  match a, b with
  | fin x, fin y =>
      if Qeq_bool y 0
      then (if Qeq_bool x 0 then nan else inf (np.ltb x 0))
      else round (x / y)
  | fin _, inf _ => fin 0
  | inf s, fin y => inf (xorb s (np.ltb y 0))
  | _, _ => nan
  end.

(** [x > 0] *)
Definition gt0 (a : t) : bool :=
  match a with
  | fin x => np.ltb 0 x
  | inf s => negb s
  | nan => false
  end.

(** [np.rint] on a float: the nearest integer, which is a float again. *)
Definition rint (a : t) : t :=
  match a with
  | fin x => fin (inject_Z (np.rint x))
  | other => other
  end.

(** [int64] to [float64]. *)
Definition of_int (z : Z) : t := fin (RN (inject_Z z)).

End f64.

(** A number of a numeric column with the dtype of its column. *)
Inductive num : Type :=
| int64 (z : Z)
| float64 (x : f64.t).

(** The value of a finite number. *)
Definition value (n : num) : option Q :=
  match n with
  | int64 z => Some (inject_Z z)
  | float64 (f64.fin q) => Some q
  | float64 _ => None
  end.

(** The number as a float: an [int64] is converted when it meets a
    float. *)
Definition to_float (n : num) : f64.t :=
  match n with
  | int64 z => f64.of_int z
  | float64 x => x
  end.

(** [a + b] on two columns. *)
Definition add_num (a b : num) : num :=
  match a, b with
  | int64 x, int64 y => int64 (i64.wrap (x + y))
  | _, _ => float64 (f64.add (to_float a) (to_float b))
  end.

(** [a > 0] on a column. *)
Definition gt0_num (a : num) : bool :=
  match a with
  | int64 z => (0 <? z)%Z
  | float64 x => f64.gt0 x
  end.

(** A row of the merged table after [fillna(0)], with its numbers as the
    columns hold them. *)
Record Joined64 : Type := mkJoined64 {
  m_country : string;
  m_name : string;
  m_sku : string;
  m_fba : num;
  m_transit_total : num;
  m_sales : num
}.

(** A row of the final table. *)
Record SummaryRow64 : Type := mkSummary64 {
  o_country : string;
  o_name : string;
  o_sku : string;
  o_fba : Z;
  o_transit_total : Z;
  o_sales : Z;
  o_forecast : Z;
  o_ratio : f64.t
}.

Section Score64.
(** [Series.round(1)] on a float column, at one cell: the result is left
    to the library. *)
Variable round1 : f64.t -> f64.t.
(** What the conversion of a finite float beyond the range of [int64]
    yields on the platform. *)
Variable cast_beyond : Q -> Z.
(** The slider value, a finite float. *)
Variable growth_factor : Q.

(** [astype(int)] at one cell: an [int64] stays; a finite float is cut off
    towards zero; a column with a float that is not finite raises. *)
Definition astype_int64 (n : num) : result Z :=
  match n with
  | int64 z => Return z
  | float64 (f64.fin q) =>
      if i64.in_range (pd.astype_int q) then Return (pd.astype_int q)
      else Return (cast_beyond q)
  | float64 _ => Raise
  end.

(** [sales * growth_factor]: a float column. *)
Definition sales_times_growth (sales : num) : f64.t :=
  f64.mul (to_float sales) (f64.fin growth_factor).

(** [(sales * growth_factor).round(0).astype(int)] *)
Definition forecast64 (sales : num) : result Z :=
  astype_int64 (float64 (f64.rint (sales_times_growth sales))).

(** [(fba + transit) / sales] *)
Definition quotient64 (j : Joined64) : f64.t :=
  f64.div (to_float (add_num (m_fba j) (m_transit_total j)))
          (to_float (m_sales j)).

(** [np.where(sales > 0, (fba + transit) / sales, 99.0)] followed by
    [.astype(float).round(1)]. *)
Definition ratio64 (j : Joined64) : f64.t :=
  round1 (np.where_ (gt0_num (m_sales j)) (quotient64 j) (f64.fin 99)).

(** Lines 79 to 93 on one row; an exception of a cast ends the run. *)
Definition score64 (j : Joined64) : result SummaryRow64 :=
  match forecast64 (m_sales j) with
  | Raise => Raise
  | Return forecast =>
      let ratio := ratio64 j in
      match astype_int64 (m_fba j),
            astype_int64 (m_transit_total j),
            astype_int64 (m_sales j) with
      | Return fba, Return transit, Return sales =>
          Return (mkSummary64 (m_country j) (m_name j) (m_sku j)
                              fba transit sales forecast ratio)
      | _, _, _ => Raise
      end
  end.
End Score64.

(** NumPy's rounding to one decimal, as its manual gives it: multiply by
    ten, [rint], divide by ten.  An instance for the examples. *)
Definition np_round1 (x : f64.t) : f64.t :=
  f64.div (f64.rint (f64.mul x (f64.fin 10))) (f64.fin 10).

(** The conversion beyond the range of [int64] on x86-64.  An instance
    for the examples. *)
Definition cast_beyond_x86 (q : Q) : Z := i64.min.

(** The merged row of the first end-to-end example in [int64] columns,
    its output row, and a row with large whole sales. *)
Definition example_joined64 : Joined64 :=
  mkJoined64 "US" "A" "SKU1" (int64 15) (int64 5) (int64 10).
Definition example_row64 : SummaryRow64 :=
  mkSummary64 "US" "A" "SKU1" 15 5 10 10 (f64.fin 2).
Definition example_large64 : Joined64 :=
  mkJoined64 "US" "A" "SKU1" (int64 15) (int64 5) (int64 (2 ^ 53 + 1)).

(* ================================================================= *)
(** ** Notions used by the further properties *)

(** Sum of a list of numbers. *)
Definition Qsum (l : list Q) : Q := fold_right Qplus 0 l.

(** The groups of a table of groups, and the rows of a table, under the
    key [k], and what they add up to under a measure [f] of the values. *)
Definition group_value {K V : Type} (eqb : K -> K -> bool) (f : V -> Q)
    (k : K) (groups : list (K * V)) : Q :=
  Qsum (map (fun g => f (snd g)) (filter (fun g => eqb k (fst g)) groups)).

Definition row_has_key {K V : Type} (eqb : K -> K -> bool) (k : K)
    (row : option K * V) : bool :=
  match fst row with
  | Some k' => eqb k k'
  | None => false
  end.

Definition rows_total {K V : Type} (eqb : K -> K -> bool) (f : V -> Q)
    (k : K) (rows : list (option K * V)) : Q :=
  Qsum (map (fun row => f (snd row)) (filter (row_has_key eqb k) rows)).

Definition eqb_key3 (x y : key3) : bool :=
  eqb_key2 (fst x) (fst y) && String.eqb (snd x) (snd y).

(** The raw rows that carry a given key. *)
Definition sales_row_has (k : key2) (r : SalesRecord) : bool :=
  match some_key2 (s_country r) (s_sku r) with
  | Some k' => eqb_key2 k k'
  | None => false
  end.

Definition stock_row_has (k : key3) (r : StockRecord) : bool :=
  match some_key3 (i_country r) (i_name r) (i_sku r) with
  | Some k' => eqb_key3 k k'
  | None => false
  end.


(** Sales rows for the examples: two rows of one key, one of them with a
    quantity that is no number, and a row without country. *)
Definition example_sales_rows : list SalesRecord :=
  [mkSales (CText "A") (Some "SKU1") (Some "US") (CNum 10);
   mkSales (CText "A") (Some "SKU1") None (CNum 3);
   mkSales (CText "A") (Some "SKU1") (Some "US") (CText "n/a");
   mkSales (CText "A") (Some "SKU1") (Some "US") (CNum 5)]%string.

(** Stock rows for the examples: one (country, SKU) under two product
    names. *)
Definition example_stock_rows : list StockRecord :=
  [mkStock (Some "A") (Some "SKU1") (Some "US") (CNum 15) (CNum 0) (CNum 5);
   mkStock (Some "A2") (Some "SKU1") (Some "US") (CNum 4) (CNum 1) CMissing;
   mkStock (Some "A") (Some "SKU1") (Some "US") (CNum 1) (CNum 2) (CNum 3)]%string.

(** Whole numbers whose magnitudes add up to [2 ^ 53] at most: sums of
    such numbers come out the same in exact arithmetic, in [int64] and in
    [float64]. *)
Definition exactly_summable (l : list Q) : Prop :=
  Forall whole l /\ Qsum (map Qabs l) <= inject_Z (2 ^ 53).

(** A number within the range of [int64]. *)
Definition within_int64 (x : Q) : Prop :=
  inject_Z i64.min <= x <= inject_Z i64.max.


(* ================================================================= *)
(** * Properties *)

(** ** Numbers *)

Lemma ltb_spec (x y : Q) : np.ltb x y = true <-> x < y.
Proof.
  unfold np.ltb. rewrite Qlt_alt.
  destruct (Qcompare x y); split; intro H; congruence.
Qed.

Lemma ltb_false (x y : Q) : np.ltb x y = false <-> y <= x.
Proof.
  pose proof (ltb_spec x y) as S.
  destruct (np.ltb x y); split; intro H; try congruence.
  - exfalso. apply (Qle_not_lt _ _ H). apply S. reflexivity.
  - apply Qnot_lt_le. intro L. apply S in L. discriminate.
Qed.

(** [inject_Z (f + 1)] as [inject_Z f + 1], for [lra]. *)
Ltac push_inject :=
  rewrite ?inject_Z_plus; change (inject_Z 1) with 1.

Lemma floor_bounds (x : Q) :
  inject_Z (Qfloor x) <= x /\ x < inject_Z (Qfloor x) + 1.
Proof.
  split.
  - apply Qfloor_le.
  - pose proof (Qlt_floor x) as H.
    rewrite inject_Z_plus in H. exact H.
Qed.

(** [rint] is within one half of its argument. *)
Lemma rint_near (x : Q) : Qabs (x - inject_Z (np.rint x)) <= 1 # 2.
Proof.
  destruct (floor_bounds x) as [Hlo Hhi].
  apply Qabs_Qle_condition.
  unfold np.rint.
  destruct (Qcompare (x - inject_Z (Qfloor x)) (1 # 2)) eqn:E.
  - apply Qeq_alt in E.
    destruct (Z.even (Qfloor x)).
    + split; lra.
    + push_inject. split; lra.
  - apply Qlt_alt in E. split; lra.
  - apply Qgt_alt in E. push_inject. split; lra.
Qed.

(** In a tie [rint] returns the even neighbour. *)
Lemma rint_tie_even (x : Q) :
  Qabs (x - inject_Z (np.rint x)) == 1 # 2 -> Z.even (np.rint x) = true.
Proof.
  destruct (floor_bounds x) as [Hlo Hhi].
  unfold np.rint.
  destruct (Qcompare (x - inject_Z (Qfloor x)) (1 # 2)) eqn:E.
  - intros _. destruct (Z.even (Qfloor x)) eqn:Ev; [exact Ev|].
    rewrite Z.even_add, Ev. reflexivity.
  - apply Qlt_alt in E. intro H.
    rewrite Qabs_pos in H by lra. lra.
  - apply Qgt_alt in E. push_inject. intro H.
    rewrite Qabs_neg in H by lra. lra.
Qed.

Lemma rint_comp (x y : Q) : x == y -> np.rint x = np.rint y.
Proof.
  intro H. unfold np.rint.
  rewrite (Qfloor_comp _ _ H).
  assert (E : Qcompare (x - inject_Z (Qfloor y)) (1 # 2)
              = Qcompare (y - inject_Z (Qfloor y)) (1 # 2)).
  { apply Qcompare_comp; [rewrite H|]; reflexivity. }
  rewrite E. reflexivity.
Qed.

Lemma rint_inject_Z (n : Z) : np.rint (inject_Z n) = n.
Proof.
  unfold np.rint. rewrite Qfloor_Z.
  assert (E : Qcompare (inject_Z n - inject_Z n) (1 # 2) = Lt).
  { apply -> Qlt_alt. lra. }
  rewrite E. reflexivity.
Qed.

(** [astype(int)] is a function of the number, not of its fraction. *)
Lemma astype_int_comp (x y : Q) : x == y -> pd.astype_int x = pd.astype_int y.
Proof.
  unfold Qeq, pd.astype_int. destruct x as [a b], y as [c d]. simpl. intro H.
  rewrite <- (Z.quot_mul_cancel_r a (Zpos b) (Zpos d)) by lia.
  rewrite <- (Z.quot_mul_cancel_r c (Zpos d) (Zpos b)) by lia.
  rewrite H. f_equal. lia.
Qed.

Lemma astype_int_inject_Z (n : Z) : pd.astype_int (inject_Z n) = n.
Proof. unfold pd.astype_int. simpl. apply Z.quot_1_r. Qed.

(** [round(0)] yields the integer [rint] picks, and the cast keeps it. *)
Lemma round0_rint (x : Q) : pd.round 0 x == inject_Z (np.rint x).
Proof.
  unfold pd.round, np.round. change (np.pow10 0) with 1.
  rewrite (rint_comp (x * 1) x) by ring.
  field.
Qed.

Lemma astype_int_round0 (x : Q) : pd.astype_int (pd.round 0 x) = np.rint x.
Proof.
  rewrite (astype_int_comp _ _ (round0_rint x)).
  apply astype_int_inject_Z.
Qed.

(** [round(1)] yields a multiple of one tenth within one twentieth of its
    argument. *)
Lemma round1_tenths (x : Q) : pd.round 1 x == inject_Z (np.rint (x * 10)) / 10.
Proof. reflexivity. Qed.

Lemma round1_near (x : Q) : Qabs (pd.round 1 x - x) <= 1 # 20.
Proof.
  pose proof (rint_near (x * 10)) as H.
  apply Qabs_Qle_condition in H. apply Qabs_Qle_condition.
  unfold pd.round, np.round. change (np.pow10 1) with 10.
  set (m := inject_Z (np.rint (x * 10))) in *.
  assert (E : m / 10 == m * (1 # 10)) by (field).
  rewrite E. split; lra.
Qed.

Lemma round1_comp (x y : Q) : x == y -> pd.round 1 x == pd.round 1 y.
Proof.
  intro H. unfold pd.round, np.round.
  rewrite (rint_comp (x * np.pow10 1) (y * np.pow10 1)) by (rewrite H; reflexivity).
  reflexivity.
Qed.

(** ** Coercion *)

Section CoercionFacts.
Variable parse : string -> option Q.

Lemma coerce_non_numeric (c : cell) : non_numeric parse c -> coerce parse c = 0.
Proof. unfold non_numeric, coerce. intros ->. reflexivity. Qed.

Lemma coerce_numeric (c : cell) (q : Q) :
  pd.to_numeric parse c = Some q -> coerce parse c = q.
Proof. unfold coerce. intros ->. reflexivity. Qed.

Lemma coerce_column_length (col : list cell) :
  List.length (coerce_column parse col) = List.length col.
Proof. apply length_map. Qed.

Lemma coerce_column_nth (col : list cell) (i : nat) (c : cell) :
  nth_error col i = Some c ->
  nth_error (coerce_column parse col) i = Some (coerce parse c).
Proof. intro H. unfold coerce_column. now apply map_nth_error. Qed.
End CoercionFacts.

(** ** Order of keys *)

#[export] Instance string_KeyOrder : KeyOrder String.compare.
Proof.
  split.
  - apply String_as_OT.cmp_eq.
  - apply String_as_OT.cmp_antisym.
  - intros a b c Hab Hbc.
    apply String_as_OT.cmp_lt. apply String_as_OT.cmp_lt in Hab, Hbc.
    eapply String_as_OT.lt_trans; eassumption.
Qed.

#[export] Instance pair_KeyOrder {A B : Type}
    (ca : A -> A -> comparison) (cb : B -> B -> comparison)
    `{!KeyOrder ca} `{!KeyOrder cb} : KeyOrder (cmp_pair ca cb).
Proof.
  split.
  - intros [a1 b1] [a2 b2]. unfold cmp_pair. simpl.
    destruct (ca a1 a2) eqn:E.
    + apply cmp_eq in E. subst a2. rewrite cmp_eq.
      split; [intros ->; reflexivity | intro H; congruence].
    + split; [discriminate|]. intro H. inversion H; subst.
      assert (ca a2 a2 = Eq) by (apply cmp_eq; reflexivity). congruence.
    + split; [discriminate|]. intro H. inversion H; subst.
      assert (ca a2 a2 = Eq) by (apply cmp_eq; reflexivity). congruence.
  - intros [a1 b1] [a2 b2]. unfold cmp_pair. simpl.
    rewrite (cmp_antisym a1 a2).
    destruct (ca a2 a1); simpl; auto using cmp_antisym.
  - intros [a1 b1] [a2 b2] [a3 b3]. unfold cmp_pair. simpl.
    destruct (ca a1 a2) eqn:E12; try discriminate;
      destruct (ca a2 a3) eqn:E23; try discriminate; intros H1 H2.
    + apply cmp_eq in E12, E23. subst.
      assert (E : ca a3 a3 = Eq) by (apply cmp_eq; reflexivity).
      rewrite E. eapply cmp_trans; eassumption.
    + apply cmp_eq in E12. subst. rewrite E23. reflexivity.
    + apply cmp_eq in E23. subst. rewrite E12. reflexivity.
    + rewrite (cmp_trans _ _ _ E12 E23). reflexivity.
Qed.

Lemma cmp_refl {K : Type} (cmp : K -> K -> comparison) `{!KeyOrder cmp} (k : K) :
  cmp k k = Eq.
Proof. apply cmp_eq. reflexivity. Qed.

Lemma eqb_key2_spec (x y : key2) : eqb_key2 x y = true <-> x = y.
Proof.
  destruct x as [a b], y as [c d]. unfold eqb_key2. simpl.
  rewrite andb_true_iff, !String.eqb_eq.
  split; [intros [-> ->]; reflexivity | intro H; inversion H; auto].
Qed.

(** ** Group-by *)

Section GroupByFacts.
Context {K V : Type}.
Variable cmp : K -> K -> comparison.
Context `{!KeyOrder cmp}.
Variable add : V -> V -> V.

Local Abbreviation keys l := (map fst l).
Local Abbreviation lt := (fun a b : K => cmp a b = Lt).

Lemma agg_insert_keys (k : K) (v : V) (l : list (K * V)) (x : K) :
  In x (keys (pd.agg_insert cmp add k v l)) <-> x = k \/ In x (keys l).
Proof.
  induction l as [|[k' v'] rest IH]; simpl.
  - intuition.
  - destruct (cmp k k') eqn:E; simpl.
    + apply cmp_eq in E. subst k'. intuition.
    + intuition.
    + rewrite IH. intuition.
Qed.

Lemma agg_insert_sorted (k : K) (v : V) (l : list (K * V)) :
  StronglySorted lt (keys l) ->
  StronglySorted lt (keys (pd.agg_insert cmp add k v l)).
Proof.
  induction l as [|[k' v'] rest IH]; simpl; intro S.
  - repeat constructor.
  - inversion S as [|? ? Srest Hall]; subst.
    destruct (cmp k k') eqn:E; simpl.
    + constructor; assumption.
    + constructor; [constructor; assumption|].
      constructor; [exact E|].
      eapply Forall_impl; [|exact Hall].
      simpl. intros z Hz. eapply cmp_trans; eassumption.
    + constructor; [apply IH; exact Srest|].
      apply Forall_forall. intros z Hz.
      apply agg_insert_keys in Hz. destruct Hz as [->|Hz].
      * rewrite cmp_antisym, E. reflexivity.
      * rewrite Forall_forall in Hall. apply Hall. exact Hz.
Qed.

Lemma sorted_keys_NoDup (ks : list K) : StronglySorted lt ks -> NoDup ks.
Proof.
  induction 1 as [|k ks S IH Hall]; constructor; [|exact IH].
  intro Hin. rewrite Forall_forall in Hall.
  specialize (Hall _ Hin). simpl in Hall.
  rewrite (cmp_refl cmp) in Hall. discriminate.
Qed.

Local Abbreviation step := (pd.groupby_step cmp add).

Lemma fold_step_sorted (rows : list (option K * V)) (acc : list (K * V)) :
  StronglySorted lt (keys acc) ->
  StronglySorted lt (keys (fold_left step rows acc)).
Proof.
  revert acc. induction rows as [|[ok v] rows IH]; simpl; intros acc S.
  - exact S.
  - apply IH. unfold pd.groupby_step. simpl. destruct ok; [|exact S].
    apply agg_insert_sorted. exact S.
Qed.

Lemma fold_step_keys (rows : list (option K * V)) (acc : list (K * V)) (x : K) :
  In x (keys (fold_left step rows acc))
  <-> In x (keys acc) \/ In (Some x) (map fst rows).
Proof.
  revert acc. induction rows as [|[ok v] rows IH]; simpl; intros acc.
  - intuition.
  - rewrite IH. unfold pd.groupby_step. simpl. destruct ok as [k|].
    + rewrite agg_insert_keys.
      split; intros [H|H]; auto.
      * destruct H as [->|H]; auto.
      * destruct H as [H|H]; auto. inversion H. auto.
    + split; intros [H|H]; auto. destruct H as [H|H]; auto. discriminate.
Qed.

(** After grouping every key occurs once, and the keys are those of the
    rows that have one. *)
Lemma groupby_sum_NoDup (rows : list (option K * V)) :
  NoDup (keys (pd.groupby_sum cmp add rows)).
Proof.
  apply sorted_keys_NoDup. apply (fold_step_sorted rows []). constructor.
Qed.

Lemma groupby_sum_keys (rows : list (option K * V)) (x : K) :
  In x (keys (pd.groupby_sum cmp add rows)) <-> In (Some x) (map fst rows).
Proof.
  unfold pd.groupby_sum.
  rewrite fold_step_keys. simpl. intuition.
Qed.
End GroupByFacts.

(** ** Left join *)

Section MergeFacts.
Context {L R K J : Type}.
Variable eqb : K -> K -> bool.
Hypothesis eqb_spec : forall x y, eqb x y = true <-> x = y.
Variable left_on : L -> K.
Variable right_on : R -> K.
Variable join : L -> option R -> J.

(** With unique keys on the right, the rows matching a key are the one
    row [find] returns, if any. *)
Lemma filter_unique_key (k : K) (right : list R) :
  NoDup (map right_on right) ->
  filter (fun r => eqb k (right_on r)) right
  = match find (fun r => eqb k (right_on r)) right with
    | Some r => [r]
    | None => []
    end.
Proof.
  induction right as [|r rest IH]; simpl; intro ND; [reflexivity|].
  inversion ND as [|? ? Hnotin ND']; subst.
  destruct (eqb k (right_on r)) eqn:E.
  - f_equal. apply eqb_spec in E.
    rewrite IH by exact ND'.
    destruct (find (fun r0 => eqb k (right_on r0)) rest) as [r'|] eqn:F;
      [|reflexivity].
    apply find_some in F. destruct F as [Hin Hk].
    apply eqb_spec in Hk. exfalso. apply Hnotin.
    rewrite <- E, Hk. apply in_map. exact Hin.
  - apply IH. exact ND'.
Qed.

(** Hence the left join is a map over the left table. *)
Lemma merge_left_unique (left : list L) (right : list R) :
  NoDup (map right_on right) ->
  pd.merge_left eqb left_on right_on join left right
  = map (fun l => join l (find (fun r => eqb (left_on l) (right_on r)) right))
        left.
Proof.
  intro ND. unfold pd.merge_left.
  induction left as [|l rest IH]; [reflexivity|].
  rewrite map_cons, <- IH.
  match goal with
  | |- flat_map ?f (l :: rest) = _ =>
      change (flat_map f (l :: rest)) with (f l ++ flat_map f rest)
  end.
  cbv beta. rewrite (filter_unique_key _ _ ND).
  destruct (find (fun r => eqb (left_on l) (right_on r)) right);
    reflexivity.
Qed.

Lemma find_none_iff (k : K) (right : list R) :
  find (fun r => eqb k (right_on r)) right = None
  <-> ~ In k (map right_on right).
Proof.
  split.
  - intros F Hin. apply in_map_iff in Hin. destruct Hin as [r [Hk Hin]].
    pose proof (find_none _ _ F r Hin) as H. simpl in H.
    assert (eqb k (right_on r) = true) by (apply eqb_spec; auto).
    congruence.
  - intro Hnot.
    destruct (find (fun r => eqb k (right_on r)) right) as [r|] eqn:F;
      [|reflexivity].
    apply find_some in F. destruct F as [Hin Hk]. apply eqb_spec in Hk.
    exfalso. apply Hnot. rewrite Hk. apply in_map. exact Hin.
Qed.
End MergeFacts.

(** ** Stable sort *)

Section SortFacts.
Context {A : Type}.
Variable before : A -> A -> bool.

Local Abbreviation may_precede := (pd.may_precede before).

Lemma insert_sorted_perm (x : A) (l : list A) :
  Permutation (pd.insert_sorted before x l) (x :: l).
Proof.
  induction l as [|y rest IH]; simpl; [reflexivity|].
  destruct (before y x); [|reflexivity].
  rewrite IH. apply perm_swap.
Qed.

Lemma sort_values_perm (l : list A) : Permutation (pd.sort_values before l) l.
Proof.
  induction l as [|x l IH]; simpl; [reflexivity|].
  rewrite insert_sorted_perm. constructor. exact IH.
Qed.

(** Stability: a row passes only rows that come strictly before it, so
    the rows of one class of equal keys keep their order. *)
Lemma insert_sorted_filter (p : A -> bool) (x : A) (l : list A) :
  (forall y, p x = true -> p y = true -> before y x = false) ->
  filter p (pd.insert_sorted before x l) = filter p (x :: l).
Proof.
  intro Hp. induction l as [|y rest IH]; simpl; [reflexivity|].
  destruct (before y x) eqn:B; [|reflexivity].
  simpl. rewrite IH. simpl.
  destruct (p x) eqn:Px; [|reflexivity].
  destruct (p y) eqn:Py; [|reflexivity].
  rewrite (Hp y eq_refl Py) in B. discriminate.
Qed.

Lemma sort_values_stable (p : A -> bool) (l : list A) :
  (forall x y, p x = true -> p y = true -> before y x = false) ->
  filter p (pd.sort_values before l) = filter p l.
Proof.
  intro Hp. induction l as [|x l IH]; [reflexivity|].
  change (pd.sort_values before (x :: l))
    with (pd.insert_sorted before x (pd.sort_values before l)).
  rewrite insert_sorted_filter by (intro y; apply Hp).
  simpl. rewrite IH. reflexivity.
Qed.

Hypothesis before_asym : forall x y, before x y = true -> before y x = false.
Hypothesis may_precede_trans :
  forall x y z, may_precede x y -> may_precede y z -> may_precede x z.

Lemma insert_sorted_sorted (x : A) (l : list A) :
  StronglySorted may_precede l ->
  StronglySorted may_precede (pd.insert_sorted before x l).
Proof.
  induction l as [|y rest IH]; simpl; intro S.
  - repeat constructor.
  - inversion S as [|? ? Srest Hall]; subst.
    destruct (before y x) eqn:B.
    + constructor; [apply IH; exact Srest|].
      apply Forall_forall. intros z Hz.
      apply (Permutation_in _ (insert_sorted_perm x rest)) in Hz.
      destruct Hz as [<-|Hz].
      * apply before_asym. exact B.
      * rewrite Forall_forall in Hall. apply Hall. exact Hz.
    + constructor; [exact S|].
      constructor; [exact B|].
      eapply Forall_impl; [|exact Hall].
      intros z Hz. eapply may_precede_trans; [exact B|exact Hz].
Qed.

Lemma sort_values_sorted (l : list A) :
  StronglySorted may_precede (pd.sort_values before l).
Proof.
  induction l as [|x l IH]; simpl; [constructor|].
  apply insert_sorted_sorted. exact IH.
Qed.
End SortFacts.

(** ** The aggregations and the merge *)

Section PipelineFacts.
Variable parse : string -> option Q.
Variable growth_factor : Q.

Lemma df_sales_grouped_keys (raw : list SalesRecord) :
  map sales_on (df_sales_grouped parse raw)
  = map fst (pd.groupby_sum cmp_key2 Qplus (df_sales parse raw)).
Proof.
  unfold df_sales_grouped. rewrite map_map. apply map_ext.
  intros [[c s] q]. reflexivity.
Qed.

Lemma df_inv_grouped_keys (raw : list StockRecord) :
  map inv_key3 (df_inv_grouped parse raw)
  = map fst (pd.groupby_sum cmp_key3 add2 (df_inv parse raw)).
Proof.
  unfold df_inv_grouped. rewrite map_map. apply map_ext.
  intros [[[c n] s] v]. reflexivity.
Qed.

(** Keys are unique after grouping. *)
Lemma df_sales_grouped_NoDup (raw : list SalesRecord) :
  NoDup (map sales_on (df_sales_grouped parse raw)).
Proof.
  rewrite df_sales_grouped_keys.
  apply (groupby_sum_NoDup cmp_key2). 
Qed.

Lemma df_inv_grouped_NoDup (raw : list StockRecord) :
  NoDup (map inv_key3 (df_inv_grouped parse raw)).
Proof.
  rewrite df_inv_grouped_keys.
  apply (groupby_sum_NoDup cmp_key3).
Qed.

(** The merge yields one row per row of the stock aggregation. *)
Lemma merged_map (inv : list StockRecord) (sales : list SalesRecord) :
  merged parse inv sales
  = map (fun l => join l (matching_sales parse sales l))
        (df_inv_grouped parse inv).
Proof.
  unfold merged. apply merge_left_unique.
  - apply eqb_key2_spec.
  - apply df_sales_grouped_NoDup.
Qed.

Lemma final_df_perm (inv : list StockRecord) (sales : list SalesRecord) :
  Permutation (final_df parse growth_factor inv sales)
              (map (score growth_factor) (merged parse inv sales)).
Proof. apply sort_values_perm. Qed.

(** Every output row is the scored row of a merged row. *)
Lemma final_df_In (inv : list StockRecord) (sales : list SalesRecord)
    (r : SummaryRow) :
  In r (final_df parse growth_factor inv sales) <->
  exists j, In j (merged parse inv sales) /\ r = score growth_factor j.
Proof.
  split.
  - intro H. apply (Permutation_in _ (final_df_perm inv sales)) in H.
    apply in_map_iff in H. destruct H as [j [E Hin]]. eauto.
  - intros [j [Hin ->]].
    apply (Permutation_in _ (Permutation_sym (final_df_perm inv sales))).
    apply in_map. exact Hin.
Qed.

Lemma score_key3 (l : AggregatedStock) (m : option AggregatedSales) :
  row_key3 (score growth_factor (join l m)) = inv_key3 l.
Proof. reflexivity. Qed.

Lemma score_key2 (l : AggregatedStock) (m : option AggregatedSales) :
  row_key2 (score growth_factor (join l m)) = inv_on l.
Proof. reflexivity. Qed.
End PipelineFacts.

(* ================================================================= *)
(** ** Binary64 rounding and the 64-bit columns *)

Lemma Qred_inject_Z (z : Z) : Qred (inject_Z z) = inject_Z z.
Proof.
  pose proof (Qred_correct (inject_Z z)) as E.
  pose proof (gcd_Qred (inject_Z z)) as G.
  destruct (Qred (inject_Z z)) as [n d].
  unfold Qeq in E. simpl in E, G.
  assert (N : n = (z * Zpos d)%Z) by lia.
  subst n. rewrite Z.gcd_comm, Z.mul_comm in G.
  rewrite Z.gcd_mul_diag_l in G by lia.
  assert (D : d = 1%positive) by lia. subst d.
  unfold inject_Z. f_equal. lia.
Qed.

Lemma RN_comp (x y : Q) : x == y -> f64.RN x = f64.RN y.
Proof. intro H. unfold f64.RN. rewrite (Qred_complete x y H). reflexivity. Qed.

Lemma pow2_opp_r (e : Z) : f64.pow2 (- e) * f64.pow2 e == 1.
Proof.
  unfold f64.pow2. rewrite <- Qpower_plus by discriminate.
  replace (- e + e)%Z with 0%Z by lia. reflexivity.
Qed.

(** A number whose mantissa at its exponent is an integer is a float. *)
Lemma RN_representable (x : Q) (w : Z) :
  ~ x == 0 ->
  x * f64.pow2 (- f64.ulp_exp (Qred x)) == inject_Z w ->
  f64.RN x == x.
Proof.
  intros N H. unfold f64.RN.
  destruct (Qeq_bool (Qred x) 0) eqn:Z0.
  - exfalso. apply N. apply Qeq_bool_eq in Z0.
    rewrite <- (Qred_correct x). exact Z0.
  - assert (R : np.rint (Qred x * f64.pow2 (- f64.ulp_exp (Qred x))) = w).
    { rewrite <- (rint_inject_Z w). apply rint_comp.
      eapply Qeq_trans; [|exact H].
      apply Qmult_comp; [apply Qred_correct|reflexivity]. }
    rewrite R. eapply Qeq_trans; [apply Qred_correct|].
    eapply Qeq_trans;
      [apply Qmult_comp; [symmetry; exact H|reflexivity]|].
    rewrite <- Qmult_assoc.
    eapply Qeq_trans;
      [apply Qmult_comp; [reflexivity|apply pow2_opp_r]|].
    ring.
Qed.

Lemma ilog2_inject_Z (z : Z) :
  z <> 0%Z -> f64.ilog2 (inject_Z z) = Z.log2 (Z.abs z).
Proof.
  intro N. unfold f64.ilog2. simpl Qnum. simpl Qden.
  change (Z.log2 1) with 0%Z. rewrite Z.sub_0_r.
  assert (P : (0 < Z.abs z)%Z) by lia.
  pose proof (Z.log2_spec _ P) as [Lo _].
  pose proof (Z.log2_nonneg (Z.abs z)) as K.
  assert (T : Qle_bool (f64.pow2 (Z.log2 (Z.abs z))) (Qabs (inject_Z z)) = true).
  { apply Qle_bool_iff. unfold f64.pow2.
    change 2 with (inject_Z 2). rewrite <- Zpower_Qpower by exact K.
    change (Qabs (inject_Z z)) with (inject_Z (Z.abs z)).
    rewrite <- Zle_Qle. exact Lo. }
  rewrite T. reflexivity.
Qed.

(** The integers up to [2 ^ 53] in magnitude are floats. *)
Lemma RN_inject_Z (z : Z) :
  (Z.abs z <= 2 ^ 53)%Z -> f64.RN (inject_Z z) == inject_Z z.
Proof.
  intro B.
  destruct (Z.eq_dec z 0) as [->|N]; [reflexivity|].
  assert (P : (0 < Z.abs z)%Z) by lia.
  pose proof (Z.log2_spec _ P) as [Lo Hi].
  pose proof (Z.log2_nonneg (Z.abs z)) as K0.
  assert (K : (Z.log2 (Z.abs z) <= 53)%Z).
  { change 53%Z with (Z.log2 (2 ^ 53)). apply Z.log2_le_mono. exact B. }
  destruct (Z_le_gt_dec (Z.log2 (Z.abs z)) 52) as [S|L].
  - apply (RN_representable _ (z * 2 ^ (52 - Z.log2 (Z.abs z)))).
    + intro E. apply N. unfold Qeq in E. simpl in E. lia.
    + rewrite Qred_inject_Z. unfold f64.ulp_exp.
      rewrite (ilog2_inject_Z z N).
      rewrite Z.max_l by lia.
      replace (- (Z.log2 (Z.abs z) - 52))%Z
        with (52 - Z.log2 (Z.abs z))%Z by lia.
      rewrite inject_Z_mult. unfold f64.pow2.
      rewrite (Zpower_Qpower 2) by lia. reflexivity.
  - assert (E : Z.log2 (Z.abs z) = 53%Z) by lia.
    rewrite E in Lo.
    assert (A : Z.abs z = (2 ^ 53)%Z) by lia.
    destruct (Z.abs_eq_or_opp z) as [Q1|Q1]; rewrite Q1 in A.
    + rewrite A. vm_compute. reflexivity.
    + assert (Zm : z = (- 2 ^ 53)%Z) by lia. rewrite Zm. vm_compute. reflexivity.
Qed.


Lemma pow2_1024_above (z : Z) :
  (Z.abs z <= 2 ^ 53)%Z -> Qabs (inject_Z z) < f64.pow2 1024.
Proof.
  intro B. change (Qabs (inject_Z z)) with (inject_Z (Z.abs z)).
  apply Qle_lt_trans with (inject_Z (2 ^ 53)).
  - rewrite <- Zle_Qle. exact B.
  - vm_compute. reflexivity.
Qed.

(** An exact result that is an integer up to [2 ^ 53] is not rounded. *)
Lemma round_integer (x : Q) (z : Z) :
  (Z.abs z <= 2 ^ 53)%Z -> x == inject_Z z ->
  exists p, f64.round x = f64.fin p /\ p == inject_Z z.
Proof.
  intros B E. exists (f64.RN x).
  assert (R : f64.RN x == inject_Z z).
  { rewrite (RN_comp x (inject_Z z) E). apply RN_inject_Z. exact B. }
  split; [|exact R].
  unfold f64.round.
  assert (F : Qle_bool (f64.pow2 1024) (Qabs (f64.RN x)) = false).
  { destruct (Qle_bool (f64.pow2 1024) (Qabs (f64.RN x))) eqn:T; [|reflexivity].
    exfalso. apply Qle_bool_iff in T.
    apply (Qle_not_lt _ _ T).
    rewrite R. apply pow2_1024_above. exact B. }
  rewrite F. reflexivity.
Qed.

Lemma in_range_small (z : Z) :
  (Z.abs z <= 2 ^ 53)%Z -> i64.in_range z = true.
Proof.
  intro B. unfold i64.in_range, i64.min, i64.max.
  apply andb_true_iff. rewrite !Z.leb_le. lia.
Qed.

Section Score64Facts.
Variable round1 : f64.t -> f64.t.
Variable cast_beyond : Q -> Z.
Variable g : Q.

(** The cast of a float that holds an integer within the range. *)
Lemma astype_int64_integer (q : Q) (n : Z) :
  q == inject_Z n -> i64.in_range n = true ->
  astype_int64 cast_beyond (float64 (f64.fin q)) = Return n.
Proof.
  intros E R. unfold astype_int64.
  rewrite (astype_int_comp _ _ E), astype_int_inject_Z, R. reflexivity.
Qed.

(** What a completed run of [score64] put into the row. *)
Lemma score64_fields (j : Joined64) (r : SummaryRow64) :
  score64 round1 cast_beyond g j = Return r ->
  forecast64 cast_beyond g (m_sales j) = Return (o_forecast r)
  /\ astype_int64 cast_beyond (m_fba j) = Return (o_fba r)
  /\ astype_int64 cast_beyond (m_transit_total j) = Return (o_transit_total r)
  /\ astype_int64 cast_beyond (m_sales j) = Return (o_sales r)
  /\ o_ratio r = ratio64 round1 j.
Proof.
  unfold score64.
  destruct (forecast64 cast_beyond g (m_sales j)) as [f|]; [|discriminate].
  destruct (astype_int64 cast_beyond (m_fba j)) as [a|]; [|discriminate].
  destruct (astype_int64 cast_beyond (m_transit_total j)) as [b|];
    [|discriminate].
  destruct (astype_int64 cast_beyond (m_sales j)) as [c|]; [|discriminate].
  intro H. inversion H; subst. simpl. repeat split; reflexivity.
Qed.



(** The float of a finite number that is an integer up to [2 ^ 53]. *)
Lemma to_float_integer (n : num) (s : Q) (z : Z) :
  value n = Some s -> s == inject_Z z -> (Z.abs z <= 2 ^ 53)%Z ->
  exists a, to_float n = f64.fin a /\ a == inject_Z z.
Proof.
  destruct n as [i|[q|b|]]; simpl; intros H E B; inversion H; subst.
  - assert (I : i = z).
    { unfold Qeq in E. simpl in E. lia. }
    subst i. exists (f64.RN (inject_Z z)). split; [reflexivity|].
    apply RN_inject_Z. exact B.
  - exists s. split; [reflexivity|exact E].
Qed.
End Score64Facts.

(* ================================================================= *)
(** * The claims *)

(** ** C1: what the merge keeps *)

(** C1, as the code has it.  The merge is a left join from the stock
    aggregation: the output has exactly one row per (country, product name,
    SKU) key of the stock aggregation, so its row count is the number of
    rows of the stock aggregation, and a (country, SKU) pair occurs in the
    output exactly when the stock aggregation has it.  A key of the sales
    aggregation is thus kept if and only if some stock row carries it. *)
Theorem merge_keeps_stock_keys (parse : string -> option Q) (g : Q)
    (inv : list StockRecord) (sales : list SalesRecord) :
  let out := final_df parse g inv sales in
  Permutation (map row_key3 out) (map inv_key3 (df_inv_grouped parse inv))
  /\ NoDup (map row_key3 out)
  /\ List.length out = List.length (df_inv_grouped parse inv)
  /\ (forall k, In k (map row_key2 out)
                <-> In k (map inv_on (df_inv_grouped parse inv))).
Proof.
  intro out.
  assert (P : Permutation out
                (map (fun l => score g (join l (matching_sales parse sales l)))
                     (df_inv_grouped parse inv))).
  { unfold out. rewrite final_df_perm, merged_map, map_map. reflexivity. }
  assert (P3 : Permutation (map row_key3 out)
                 (map inv_key3 (df_inv_grouped parse inv))).
  { rewrite P, map_map. erewrite map_ext; [reflexivity|].
    intro l. apply score_key3. }
  assert (P2 : Permutation (map row_key2 out)
                 (map inv_on (df_inv_grouped parse inv))).
  { rewrite P, map_map. erewrite map_ext; [reflexivity|].
    intro l. apply score_key2. }
  repeat split.
  - exact P3.
  - eapply Permutation_NoDup; [apply Permutation_sym; exact P3|].
    apply df_inv_grouped_NoDup.
  - rewrite (Permutation_length P). apply length_map.
  - apply Permutation_in. exact P2.
  - apply Permutation_in. apply Permutation_sym. exact P2.
Qed.

(** C1 as written fails: with an empty stock table the one key of the
    sales aggregation is absent from the output, which has no row while
    the sales aggregation has one. *)
Lemma sales_only_key_dropped :
  let sales := [mkSales (CText "A") (Some "SKU1"%string) (Some "US"%string)
                        (CNum 10)] in
  let out := final_df parse_nothing 1 [] sales in
  In ("US"%string, "SKU1"%string)
     (map sales_on (df_sales_grouped parse_nothing sales))
  /\ ~ In ("US"%string, "SKU1"%string) (map row_key2 out)
  /\ List.length out <> List.length (df_sales_grouped parse_nothing sales).
Proof.
  vm_compute. repeat split.
  - left. reflexivity.
  - intros [].
  - discriminate.
Qed.

(** ** C2: the stock-to-sales ratio *)

Lemma ratio_without_sales (j : Joined) :
  np.ltb 0 (sales_filled j) = false -> ratio_rounded j = 99.0.
Proof. unfold ratio_rounded, ratio_raw. intros ->. reflexivity. Qed.

Lemma ratio_with_sales (j : Joined) :
  np.ltb 0 (sales_filled j) = true ->
  ratio_rounded j
  = pd.round 1 ((j_fba j + j_transit_total j) / sales_filled j).
Proof. unfold ratio_rounded, ratio_raw. intros ->. reflexivity. Qed.




(** ** C3: the highlight rule *)

Lemma high_risk_spec (row : SummaryRow) :
  high_risk row = true <-> ratio row < 2 /\ (0 < sales_30d row)%Z.
Proof.
  unfold high_risk. rewrite andb_true_iff, ltb_spec, Z.ltb_lt. reflexivity.
Qed.

Lemma highlight_low_ratio_marked (row : SummaryRow) :
  highlight_low_ratio row = repeat highlight (len row) <-> high_risk row = true.
Proof.
  unfold highlight_low_ratio. destruct (high_risk row); split; intro H;
    try reflexivity; discriminate.
Qed.

(** C3.  The row is marked as high risk (every one of its cells gets the
    alert style) if and only if its ratio is below 2 and its
    trailing-30-day sales are positive; otherwise no cell is styled.  A row
    with ratio exactly 2 and a row with sales 0 are not marked. *)
Theorem highlight_rule (row : SummaryRow) :
  (highlight_low_ratio row = repeat highlight (len row)
   <-> ratio row < 2 /\ (0 < sales_30d row)%Z)
  /\ (~ (ratio row < 2 /\ (0 < sales_30d row)%Z)
      -> highlight_low_ratio row = repeat default (len row))
  /\ (ratio row == 2 -> highlight_low_ratio row = repeat default (len row))
  /\ (sales_30d row = 0%Z
      -> highlight_low_ratio row = repeat default (len row))
  /\ List.length (highlight_low_ratio row) = List.length display_cols.
Proof.
  assert (N : ~ (ratio row < 2 /\ (0 < sales_30d row)%Z)
              -> highlight_low_ratio row = repeat default (len row)).
  { intro H. rewrite <- high_risk_spec in H. unfold highlight_low_ratio.
    destruct (high_risk row); [exfalso; apply H; reflexivity | reflexivity]. }
  split; [|split; [|split; [|split]]].
  - rewrite highlight_low_ratio_marked. apply high_risk_spec.
  - exact N.
  - intro E. apply N. intros [L _]. rewrite E in L.
    apply (Qlt_irrefl _ L).
  - intro E. apply N. intros [_ L]. lia.
  - unfold highlight_low_ratio.
    destruct (high_risk row); apply repeat_length.
Qed.

(** The rule at the row of the first end-to-end example, whose ratio is
    exactly 2. *)
Lemma highlight_rule_witness :
  ratio example_row == 2
  /\ highlight_low_ratio example_row = repeat default (len example_row).
Proof.
  assert (E : ratio example_row == 2) by reflexivity.
  split; [exact E|].
  destruct (highlight_rule example_row) as [_ [_ [B _]]].
  apply B. exact E.
Defined.

(** ** C4: the forecast *)

Lemma forecast_rint (g : Q) (j : Joined) :
  forecast g j = np.rint (sales_filled j * g).
Proof. unfold forecast. apply astype_int_round0. Qed.

(** C4, as the code has it.  The forecast of an output row is the float
    product of the merged trailing-30-day sales (converted to a float
    when the column holds integers) and the growth factor, rounded to the
    nearest integer, the even one in a tie, and cast to [int64], which
    keeps it when it is within the range.  With growth factor 1 and whole
    sales of at most [2 ^ 53] in magnitude the forecast is the sales, and
    so is the sales column of the row. *)
Theorem forecast64_column (round1 : f64.t -> f64.t) (cast_beyond : Q -> Z)
    (g : Q) (j : Joined64) (r : SummaryRow64) :
  score64 round1 cast_beyond g j = Return r ->
  exists p,
    f64.mul (to_float (m_sales j)) (f64.fin g) = f64.fin p
    /\ (i64.in_range (np.rint p) = true ->
        o_forecast r = np.rint p
        /\ Qabs (p - inject_Z (o_forecast r)) <= 1 # 2
        /\ (Qabs (p - inject_Z (o_forecast r)) == 1 # 2
            -> Z.even (o_forecast r) = true))
    /\ (g == 1 ->
        forall (s : Q) (z : Z),
          value (m_sales j) = Some s -> s == inject_Z z ->
          (Z.abs z <= 2 ^ 53)%Z ->
          o_forecast r = z /\ o_sales r = z).
Proof.
  intro H.
  destruct (score64_fields round1 cast_beyond g j r H) as [F [_ [_ [S _]]]].
  unfold forecast64, sales_times_growth in F.
  destruct (f64.mul (to_float (m_sales j)) (f64.fin g)) as [p|b|] eqn:P;
    simpl in F; try discriminate.
  rewrite astype_int_inject_Z in F.
  exists p. split; [reflexivity|]. split.
  - intro I. rewrite I in F. inversion F as [E].
    split; [reflexivity|]. split; [apply rint_near|apply rint_tie_even].
  - intros G s z V E B.
    destruct (to_float_integer _ _ _ V E B) as [a [A1 A2]].
    rewrite A1 in P. simpl in P.
    assert (M : a * g == inject_Z z) by (rewrite A2, G; ring).
    destruct (round_integer _ _ B M) as [p' [R1 R2]].
    rewrite R1 in P. inversion P; subst p'.
    assert (N : np.rint p = z).
    { rewrite <- (rint_inject_Z z). apply rint_comp. exact R2. }
    rewrite N, (in_range_small z B) in F. split; [congruence|].
    clear P A1 F.
    destruct (m_sales j) as [i|[q|b|]]; simpl in V, S;
      try discriminate; injection V as V'; rewrite <- V' in E.
    + injection S as S'. unfold Qeq in E. simpl in E. lia.
    + rewrite (astype_int_comp _ _ E), astype_int_inject_Z,
        (in_range_small z B) in S.
      congruence.
Qed.

(** The theorem on the first end-to-end example: sales 10, growth factor
    1. *)
Lemma forecast64_column_witness :
  score64 np_round1 cast_beyond_x86 1 example_joined64 = Return example_row64
  /\ value (m_sales example_joined64) = Some (inject_Z 10)
  /\ o_forecast example_row64 = 10%Z.
Proof.
  assert (H : score64 np_round1 cast_beyond_x86 1 example_joined64
              = Return example_row64) by (vm_compute; reflexivity).
  assert (V : value (m_sales example_joined64) = Some (inject_Z 10))
    by reflexivity.
  split; [exact H|]. split; [exact V|].
  destruct (forecast64_column np_round1 cast_beyond_x86 1 _ _ H)
    as [p [_ [_ G]]].
  apply (G (Qeq_refl 1) _ 10%Z V (Qeq_refl _)). vm_compute. discriminate.
Defined.

(** C4 as written fails in its last part: for an [int64] sales column the
    product is taken on floats, and the whole sales [2 ^ 53 + 1] with
    growth factor 1 give the forecast [2 ^ 53]. *)
Lemma forecast_of_large_sales_differs :
  exists r,
    score64 np_round1 cast_beyond_x86 1 example_large64 = Return r
    /\ o_sales r = (2 ^ 53 + 1)%Z
    /\ o_forecast r = (2 ^ 53)%Z
    /\ o_forecast r <> o_sales r.
Proof.
  eexists. split; [vm_compute; reflexivity|].
  split; [reflexivity|]. split; [reflexivity|]. vm_compute. discriminate.
Qed.

(** ** C5: the final sort *)

Lemma before_spec (x y : SummaryRow) :
  before x y = true
  <-> ratio x < ratio y \/ (ratio x == ratio y /\ (sales_30d y < sales_30d x)%Z).
Proof.
  unfold before.
  rewrite orb_true_iff, andb_true_iff, ltb_spec, Qeq_bool_iff, Z.ltb_lt.
  reflexivity.
Qed.

(** [y] need not come strictly before [x] exactly when [x] may stand in
    front of [y]. *)
Lemma not_before_ordered (x y : SummaryRow) :
  before y x = false <-> ordered x y.
Proof.
  pose proof (before_spec y x) as S. unfold ordered. split.
  - intro F.
    assert (N : ~ (ratio y < ratio x
                   \/ (ratio y == ratio x /\ (sales_30d x < sales_30d y)%Z))).
    { intro H. apply S in H. congruence. }
    destruct (Qlt_le_dec (ratio x) (ratio y)) as [L|G]; [left; exact L|].
    right. destruct (Qlt_le_dec (ratio y) (ratio x)) as [L'|G'].
    + exfalso. apply N. left. exact L'.
    + assert (E : ratio x == ratio y) by (apply Qle_antisym; assumption).
      split; [exact E|].
      destruct (Z_lt_le_dec (sales_30d x) (sales_30d y)) as [L''|G'']; [|exact G''].
      exfalso. apply N. right. split; [symmetry; exact E|exact L''].
  - intro O. destruct (before y x) eqn:B; [|reflexivity].
    exfalso. destruct S as [S _]. specialize (S eq_refl).
    destruct O as [L|[E Hs]], S as [L'|[E' Hs']]; try lra; lia.
Qed.

Lemma before_asym (x y : SummaryRow) : before x y = true -> before y x = false.
Proof.
  intro B. apply not_before_ordered. apply before_spec in B. unfold ordered.
  destruct B as [L|[E Hs]]; [left; exact L|right; split; [exact E|lia]].
Qed.

Lemma ordered_trans (x y z : SummaryRow) :
  ordered x y -> ordered y z -> ordered x z.
Proof.
  unfold ordered. intros [L1|[E1 H1]] [L2|[E2 H2]].
  - left. lra.
  - left. lra.
  - left. lra.
  - right. split; [lra|lia].
Qed.

Lemma StronglySorted_impl {A : Type} (R S : A -> A -> Prop) (l : list A) :
  (forall x y, R x y -> S x y) -> StronglySorted R l -> StronglySorted S l.
Proof.
  intros RS H. induction H as [|x l _ IH Hall]; constructor; [exact IH|].
  eapply Forall_impl; [|exact Hall]. intro y. apply RS.
Qed.

Lemma same_keys_ordered (q : Q) (s : Z) (x y : SummaryRow) :
  same_keys q s x = true -> same_keys q s y = true -> ordered x y.
Proof.
  unfold same_keys. rewrite !andb_true_iff, !Qeq_bool_iff, !Z.eqb_eq.
  intros [Ex Sx] [Ey Sy]. right. split; [lra|lia].
Qed.

(** C5.  The final table is a reordering of the scored rows in which
    every row may stand in front of every later row: a lower ratio comes
    first and, among equal ratios, higher trailing sales come first; and
    the rows that agree on both sort keys keep the order they had before
    the sort. *)
Theorem final_df_sorted_stable (parse : string -> option Q) (g : Q)
    (inv : list StockRecord) (sales : list SalesRecord) :
  let rows := map (score g) (merged parse inv sales) in
  let out := final_df parse g inv sales in
  Permutation out rows
  /\ StronglySorted ordered out
  /\ (forall q s, filter (same_keys q s) out = filter (same_keys q s) rows).
Proof.
  intros rows out. split; [apply final_df_perm|]. split.
  - apply (StronglySorted_impl (pd.may_precede before)).
    + intros x y. apply not_before_ordered.
    + apply sort_values_sorted.
      * apply before_asym.
      * intros x y z Hxy Hyz. apply not_before_ordered.
        apply not_before_ordered in Hxy, Hyz.
        eapply ordered_trans; eassumption.
  - intros q s. apply sort_values_stable.
    intros x y Hx Hy. apply not_before_ordered.
    eapply same_keys_ordered; eassumption.
Qed.

(** ** C6: coercion of the quantity columns *)

(** C6.  Coercion of a column is defined on every column and keeps its
    length (no error, no row dropped); it returns a number at every
    position (no missing value), which is 0 when the cell is empty or is
    not numeric.  The sales quantity, the FBA stock and the two summands of
    the in-transit total are the coerced cells of their columns, row by
    row. *)
Theorem coercion_never_fails (parse : string -> option Q) :
  (forall col : list cell,
      List.length (coerce_column parse col) = List.length col
      /\ forall i c, nth_error col i = Some c ->
           nth_error (coerce_column parse col) i = Some (coerce parse c)
           /\ (non_numeric parse c -> coerce parse c = 0))
  /\ coerce parse CMissing = 0
  /\ (forall raw, map snd (df_sales parse raw)
                  = coerce_column parse (map s_qty raw))
  /\ (forall raw, map (fun x => fst (snd x)) (df_inv parse raw)
                  = coerce_column parse (map i_fba raw))
  /\ (forall raw, map (fun x => snd (snd x)) (df_inv parse raw)
                  = map (fun r => coerce parse (i_inbound r)
                                  + coerce parse (i_transit r)) raw).
Proof.
  split; [|split; [|split; [|split]]].
  - intro col. split; [apply coerce_column_length|].
    intros i c H. split.
    + apply coerce_column_nth. exact H.
    + apply coerce_non_numeric.
  - reflexivity.
  - intro raw. unfold df_sales, coerce_column. rewrite !map_map. reflexivity.
  - intro raw. unfold df_inv, coerce_column. rewrite !map_map. reflexivity.
  - intro raw. unfold df_inv. rewrite map_map. reflexivity.
Qed.

(** The theorem on a column with a number, a text and an empty cell. *)
Lemma coercion_never_fails_witness :
  nth_error [CNum 3; CText "n/a"; CMissing] 1 = Some (CText "n/a")
  /\ non_numeric parse_nothing (CText "n/a")
  /\ nth_error (coerce_column parse_nothing [CNum 3; CText "n/a"; CMissing]) 1
     = Some 0.
Proof.
  assert (H : nth_error [CNum 3; CText "n/a"; CMissing] 1 = Some (CText "n/a"))
    by reflexivity.
  assert (N : non_numeric parse_nothing (CText "n/a")) by reflexivity.
  split; [exact H|]. split; [exact N|].
  destruct (coercion_never_fails parse_nothing) as [C _].
  destruct (C [CNum 3; CText "n/a"; CMissing]) as [_ C'].
  destruct (C' 1%nat (CText "n/a") H) as [E Z0].
  rewrite E, (Z0 N). reflexivity.
Defined.

(** ** C8: sign of the coerced quantities *)

(** C8, as the code has it.  Coercion changes no number: a numeric cell
    keeps its value and its sign, and only what is empty or not numeric
    becomes 0.  So a coerced quantity is non-negative exactly when the cell
    does not hold a negative number. *)
Theorem coerce_sign (parse : string -> option Q) (c : cell) :
  (forall q, pd.to_numeric parse c = Some q -> coerce parse c = q)
  /\ (non_numeric parse c -> coerce parse c = 0)
  /\ (0 <= coerce parse c
      <-> forall q, pd.to_numeric parse c = Some q -> 0 <= q).
Proof.
  split; [intros q; apply coerce_numeric|].
  split; [apply coerce_non_numeric|].
  unfold coerce. destruct (pd.to_numeric parse c) as [q|]; simpl.
  - split.
    + intros H q' E. inversion E; subst. exact H.
    + intro H. apply H. reflexivity.
  - split; [intros _ q E; discriminate | intros _; apply Qle_refl].
Qed.

Lemma coerce_sign_witness :
  pd.to_numeric parse_nothing (CNum 4) = Some 4
  /\ coerce parse_nothing (CNum 4) = 4.
Proof.
  assert (H : pd.to_numeric parse_nothing (CNum 4) = Some 4) by reflexivity.
  split; [exact H|].
  destruct (coerce_sign parse_nothing (CNum 4)) as [K _].
  apply K. exact H.
Defined.

(** C8 as written fails: a sales quantity of -5 is still -5 after
    coercion, and so is the FBA stock of a stock row. *)
Lemma negative_quantity_stays_negative :
  map snd (df_sales parse_nothing
             [mkSales (CText "A") (Some "SKU1"%string) (Some "US"%string)
                      (CNum (-5))])
  = [-5]
  /\ map (fun x => fst (snd x))
         (df_inv parse_nothing
            [mkStock (Some "A"%string) (Some "SKU1"%string) (Some "US"%string)
                     (CNum (-5)) (CNum 0) (CNum 0)])
     = [-5]
  /\ ~ 0 <= coerce parse_nothing (CNum (-5)).
Proof.
  split; [reflexivity|]. split; [reflexivity|].
  intro H. vm_compute in H. apply H. reflexivity.
Qed.

(** ** C7: the loader on text files *)

Section LoaderFacts.
Variable Table : Type.
Variable read_excel : UploadedFile -> result Table * UploadedFile.
Variable read_csv : list byte -> encoding -> result Table.

Local Abbreviation try_encodings := (try_encodings Table read_csv).

(** The loop returns the table of the first encoding that does not
    raise. *)
Lemma try_encodings_some (content : list byte) (encs : list encoding)
    (t : Table) :
  try_encodings content encs = Some t
  <-> exists pre enc post,
        encs = pre ++ enc :: post
        /\ Forall (fun e => read_csv content e = Raise) pre
        /\ read_csv content enc = Return t.
Proof.
  induction encs as [|e rest IH]; simpl.
  - split; [discriminate|].
    intros [pre [enc [post [E _]]]]. destruct pre; discriminate.
  - destruct (read_csv content e) eqn:R.
    + split.
      * intro H. inversion H; subst.
        exists [], e, rest. repeat split; [constructor|exact R].
      * intros [pre [enc [post [E [F Ok]]]]]. destruct pre as [|e' pre].
        -- simpl in E. inversion E; subst. congruence.
        -- simpl in E. inversion E; subst. inversion F; subst. congruence.
    + rewrite IH. split.
      * intros [pre [enc [post [E [F Ok]]]]].
        exists (e :: pre), enc, post. subst rest.
        repeat split; [constructor; assumption|exact Ok].
      * intros [pre [enc [post [E [F Ok]]]]]. destruct pre as [|e' pre].
        -- simpl in E. inversion E; subst. congruence.
        -- simpl in E. inversion E; subst. inversion F; subst.
           exists pre, enc, post. repeat split; assumption.
Qed.

(** It returns null exactly when every encoding raises. *)
Lemma try_encodings_none (content : list byte) (encs : list encoding) :
  try_encodings content encs = None
  <-> Forall (fun e => read_csv content e = Raise) encs.
Proof.
  induction encs as [|e rest IH]; simpl.
  - split; [constructor|reflexivity].
  - destruct (read_csv content e) eqn:R.
    + split; [discriminate|]. intro F. inversion F; subst. congruence.
    + rewrite IH. split; [constructor; assumption|].
      intro F. inversion F; assumption.
Qed.
End LoaderFacts.

(** C7.  On a file whose name ends neither in [.xlsx] nor in [.xls], the
    loader reads the bytes, rewinds the file and tries UTF-8, GBK and
    UTF-16 in this order: it returns the table of the first encoding under
    which the parse does not raise, and null when all three raise. *)
Theorem read_file_text (Table : Type)
    (read_excel : UploadedFile -> result Table * UploadedFile)
    (read_csv : list byte -> encoding -> result Table) (f : UploadedFile) :
  endswith (name f) ".xlsx" = false ->
  endswith (name f) ".xls" = false ->
  let content := skipn (pos f) (data f) in
  encodings = [utf_8; gbk; utf_16]
  /\ exists res,
       read_file Table read_excel read_csv (Some f)
       = (Return res, Some (mkFile (name f) (data f) 0))
       /\ res = match read_csv content utf_8 with
                | Return t => Some t
                | Raise =>
                    match read_csv content gbk with
                    | Return t => Some t
                    | Raise =>
                        match read_csv content utf_16 with
                        | Return t => Some t
                        | Raise => None
                        end
                    end
                end
       /\ (forall t, res = Some t
                     <-> exists pre enc post,
                           encodings = pre ++ enc :: post
                           /\ Forall (fun e => read_csv content e = Raise) pre
                           /\ read_csv content enc = Return t)
       /\ (res = None <-> forall enc, read_csv content enc = Raise).
Proof.
  intros X1 X2 content. split; [reflexivity|].
  exists (try_encodings Table read_csv content encodings).
  split; [|split; [|split]].
  - unfold read_file. rewrite X1, X2. reflexivity.
  - reflexivity.
  - intro t. apply try_encodings_some.
  - rewrite try_encodings_none. split.
    + intros F enc. rewrite Forall_forall in F. apply F.
      destruct enc; simpl; auto.
    + intro A. apply Forall_forall. intros e _. apply A.
Qed.

(** The loader on a text file that only GBK can decode. *)
Lemma read_file_text_witness :
  endswith "sales.csv" ".xlsx" = false
  /\ endswith "sales.csv" ".xls" = false
  /\ read_file nat (fun f => (Raise, f)) gbk_only
               (Some (mkFile "sales.csv" [] 0))
     = (Return (Some 1%nat), Some (mkFile "sales.csv" [] 0)).
Proof.
  assert (X1 : endswith "sales.csv" ".xlsx" = false) by reflexivity.
  assert (X2 : endswith "sales.csv" ".xls" = false) by reflexivity.
  split; [exact X1|]. split; [exact X2|].
  destruct (read_file_text nat (fun f => (Raise, f)) gbk_only
              (mkFile "sales.csv" [] 0) X1 X2) as [_ [res [E [V _]]]].
  rewrite E, V. reflexivity.
Defined.

(** ** C9: a stock key without sales *)

Lemma score_without_sales (g : Q) (l : AggregatedStock) :
  let r := score g (join l None) in
  sales_30d r = 0%Z /\ forecast_30d r = 0%Z /\ ratio r = 99.0
  /\ high_risk r = false.
Proof.
  simpl. split; [reflexivity|]. split; [|split].
  - change (forecast g (join l None) = 0%Z). rewrite forecast_rint.
    rewrite <- (rint_inject_Z 0). apply rint_comp.
    change (sales_filled (join l None)) with 0. ring.
  - apply ratio_without_sales. reflexivity.
  - unfold high_risk. apply andb_false_r.
Qed.

(** C9.  A row of the stock aggregation whose (country, SKU) has no row in
    the sales aggregation yields an output row with its key, with
    trailing-30-day sales 0 (and forecast 0), ratio 99.0 and no
    highlight. *)
Theorem stock_only_key_row (parse : string -> option Q) (g : Q)
    (inv : list StockRecord) (sales : list SalesRecord)
    (l : AggregatedStock) :
  In l (df_inv_grouped parse inv) ->
  ~ In (inv_on l) (map sales_on (df_sales_grouped parse sales)) ->
  exists r,
    In r (final_df parse g inv sales)
    /\ row_key3 r = inv_key3 l
    /\ sales_30d r = 0%Z
    /\ forecast_30d r = 0%Z
    /\ ratio r = 99.0
    /\ high_risk r = false
    /\ highlight_low_ratio r = repeat default (len r).
Proof.
  intros Hin Hnone.
  exists (score g (join l None)).
  destruct (score_without_sales g l) as [S [F [R H]]].
  split; [|split; [reflexivity|]].
  - apply final_df_In. exists (join l None). split; [|reflexivity].
    rewrite merged_map. apply in_map_iff. exists l. split; [|exact Hin].
    f_equal. unfold matching_sales.
    apply (find_none_iff eqb_key2 eqb_key2_spec). exact Hnone.
  - repeat (split; [assumption|]).
    unfold highlight_low_ratio. rewrite H. reflexivity.
Qed.

(** The theorem at the third end-to-end example: stock for SKU1 and SKU2,
    sales for SKU1 only. *)
Lemma stock_only_key_row_witness :
  In example_stock_only (df_inv_grouped parse_nothing example_stock2)
  /\ ~ In (inv_on example_stock_only)
          (map sales_on (df_sales_grouped parse_nothing example_sales))
  /\ exists r,
       In r (final_df parse_nothing 1 example_stock2 example_sales)
       /\ row_key3 r = ("US", "B", "SKU2")%string
       /\ sales_30d r = 0%Z
       /\ ratio r = 99.0
       /\ highlight_low_ratio r = repeat default (len r).
Proof.
  assert (H1 : In example_stock_only
                 (df_inv_grouped parse_nothing example_stock2))
    by (right; left; reflexivity).
  assert (H2 : ~ In (inv_on example_stock_only)
                    (map sales_on (df_sales_grouped parse_nothing example_sales))).
  { intros [E|[]]. discriminate E. }
  split; [exact H1|]. split; [exact H2|].
  destruct (stock_only_key_row parse_nothing 1 example_stock2 example_sales
              example_stock_only H1 H2)
    as [r [Hin [K [S [_ [R [_ Hl]]]]]]].
  exists r. split; [exact Hin|]. split; [exact K|]. split; [exact S|].
  split; [exact R|exact Hl].
Defined.

(** ** C10: the product name of the sales table *)

Lemma df_sales_without_name (parse : string -> option Q)
    (s1 s2 : list SalesRecord) :
  map sales_without_name s1 = map sales_without_name s2 ->
  df_sales parse s1 = df_sales parse s2.
Proof.
  intro H.
  assert (E : forall raw,
             df_sales parse raw
             = map (fun t : option string * option string * cell =>
                      (some_key2 (snd (fst t)) (fst (fst t)),
                       coerce parse (snd t)))
                   (map sales_without_name raw)).
  { intro raw. unfold df_sales. rewrite map_map. reflexivity. }
  rewrite (E s1), (E s2), H. reflexivity.
Qed.

(** The product name of an output row is one of the stock table. *)
Lemma product_name_from_stock (parse : string -> option Q) (g : Q)
    (inv : list StockRecord) (sales : list SalesRecord) (r : SummaryRow) :
  In r (final_df parse g inv sales) ->
  In (Some (product_name r)) (map i_name inv).
Proof.
  intro H. apply final_df_In in H. destruct H as [j [Hin ->]].
  rewrite merged_map in Hin. apply in_map_iff in Hin.
  destruct Hin as [l [<- Hl]]. simpl.
  assert (K : In (inv_key3 l) (map inv_key3 (df_inv_grouped parse inv)))
    by (apply in_map; exact Hl).
  rewrite df_inv_grouped_keys in K.
  apply (groupby_sum_keys cmp_key3) in K.
  unfold df_inv in K. rewrite map_map in K. simpl in K.
  apply in_map_iff in K. destruct K as [row [E Hrow]].
  apply in_map_iff. exists row. split; [|exact Hrow].
  unfold some_key3, some_key2, inv_key3 in E.
  destruct (i_country row), (i_name row), (i_sku row); try discriminate.
  inversion E. reflexivity.
Qed.

(** C10.  Two sales tables that agree on SKU, country and sales quantity,
    row by row, give the same final table and the same row styles,
    whatever their product names; and every product name of the output is
    a product name of the stock table. *)
Theorem sales_product_name_unused (parse : string -> option Q) (g : Q)
    (inv : list StockRecord) (s1 s2 : list SalesRecord) :
  map sales_without_name s1 = map sales_without_name s2 ->
  final_df parse g inv s1 = final_df parse g inv s2
  /\ styled_df (final_df parse g inv s1) = styled_df (final_df parse g inv s2)
  /\ (forall r, In r (final_df parse g inv s1) ->
                In (Some (product_name r)) (map i_name inv)).
Proof.
  intro H. apply (df_sales_without_name parse) in H.
  assert (E : final_df parse g inv s1 = final_df parse g inv s2).
  { unfold final_df, merged, df_sales_grouped. rewrite H. reflexivity. }
  split; [exact E|]. split; [rewrite E; reflexivity|].
  intro r. apply product_name_from_stock.
Qed.

(** The theorem on the example sales table under another product name. *)
Lemma sales_product_name_unused_witness :
  map sales_without_name example_sales = map sales_without_name example_sales_renamed
  /\ final_df parse_nothing 1 example_stock example_sales
     = final_df parse_nothing 1 example_stock example_sales_renamed.
Proof.
  assert (H : map sales_without_name example_sales
              = map sales_without_name example_sales_renamed) by reflexivity.
  split; [exact H|].
  apply (sales_product_name_unused parse_nothing 1 example_stock _ _ H).
Defined.

(* ================================================================= *)
(** * Further properties of the pipeline *)

(** ** What the aggregations add up *)

Section GroupBySums.
Context {K V : Type}.
Variable cmp : K -> K -> comparison.
Context `{!KeyOrder cmp}.
Variable add : V -> V -> V.
Variable eqb : K -> K -> bool.
Hypothesis eqb_spec : forall x y, eqb x y = true <-> x = y.
Variable f : V -> Q.
Hypothesis f_add : forall a b, f (add a b) == f a + f b.

Lemma agg_insert_value (k k' : K) (v : V) (l : list (K * V)) :
  group_value eqb f k (pd.agg_insert cmp add k' v l)
  == group_value eqb f k l + (if eqb k k' then f v else 0).
Proof.
  unfold group_value.
  induction l as [|[k0 v0] rest IH]; simpl.
  - destruct (eqb k k'); simpl; lra.
  - destruct (cmp k' k0) eqn:E; simpl.
    + apply cmp_eq in E. subst k0.
      destruct (eqb k k'); simpl; [rewrite f_add|]; lra.
    + destruct (eqb k k'), (eqb k k0); simpl; lra.
    + destruct (eqb k k0); simpl; rewrite IH; lra.
Qed.

Lemma fold_step_value (k : K) (rows : list (option K * V))
    (acc : list (K * V)) :
  group_value eqb f k (fold_left (pd.groupby_step cmp add) rows acc)
  == group_value eqb f k acc + rows_total eqb f k rows.
Proof.
  revert acc. induction rows as [|[ok v] rows IH]; intro acc; simpl.
  - unfold rows_total. simpl. lra.
  - rewrite IH. unfold pd.groupby_step, rows_total, row_has_key. simpl.
    destruct ok as [k'|]; simpl.
    + rewrite agg_insert_value. destruct (eqb k k'); simpl; lra.
    + lra.
Qed.

(** Where keys are unique, the value under a key is that of its one
    group. *)
Lemma group_value_unique (k : K) (v : V) (l : list (K * V)) :
  NoDup (map fst l) -> In (k, v) l -> group_value eqb f k l == f v.
Proof.
  unfold group_value.
  induction l as [|[k0 v0] rest IH]; simpl; intros ND Hin; [contradiction|].
  inversion ND as [|? ? Hnot ND']; subst.
  destruct Hin as [E|Hin].
  - inversion E; subst.
    assert (T : eqb k k = true) by (apply eqb_spec; reflexivity).
    rewrite T. simpl.
    assert (Z0 : Qsum (map (fun g => f (snd g))
                         (filter (fun g => eqb k (fst g)) rest)) == 0).
    { clear IH ND ND' E T. induction rest as [|[k1 v1] rest IH]; simpl.
      - reflexivity.
      - destruct (eqb k k1) eqn:B.
        + apply eqb_spec in B. subst k1. exfalso. apply Hnot. left. reflexivity.
        + apply IH. intro H. apply Hnot. right. exact H. }
    rewrite Z0. lra.
  - destruct (eqb k k0) eqn:B.
    + apply eqb_spec in B. subst k0. exfalso. apply Hnot.
      apply (in_map fst) in Hin. exact Hin.
    + apply IH; assumption.
Qed.

(** The value of a group is the sum over the rows of its key. *)
Lemma groupby_sum_value (k : K) (v : V) (rows : list (option K * V)) :
  In (k, v) (pd.groupby_sum cmp add rows) -> f v == rows_total eqb f k rows.
Proof.
  intro Hin.
  rewrite <- (group_value_unique k v _ (groupby_sum_NoDup cmp add rows) Hin).
  unfold pd.groupby_sum. rewrite fold_step_value.
  unfold group_value. simpl. lra.
Qed.

End GroupBySums.

Lemma filter_map_comm {A B : Type} (p : B -> bool) (F : A -> B) (l : list A) :
  filter p (map F l) = map F (filter (fun x => p (F x)) l).
Proof.
  induction l as [|x l IH]; simpl; [reflexivity|].
  destruct (p (F x)); simpl; rewrite IH; reflexivity.
Qed.

Lemma eqb_key3_spec (x y : key3) : eqb_key3 x y = true <-> x = y.
Proof.
  destruct x as [a b], y as [c d]. unfold eqb_key3. simpl.
  rewrite andb_true_iff, eqb_key2_spec, String.eqb_eq.
  split; [intros [-> ->]; reflexivity | intro H; inversion H; auto].
Qed.

Lemma some_key2_spec (a b : option string) (c s : string) :
  some_key2 a b = Some (c, s) <-> a = Some c /\ b = Some s.
Proof.
  unfold some_key2. destruct a, b; split;
    try discriminate; try (intros [? ?]; discriminate).
  - intro H. inversion H. auto.
  - intros [H1 H2]. inversion H1; inversion H2. reflexivity.
Qed.

Lemma some_key3_spec (a b c : option string) (x y z : string) :
  some_key3 a b c = Some (x, y, z) <-> a = Some x /\ b = Some y /\ c = Some z.
Proof.
  unfold some_key3, some_key2. destruct a, b, c; split;
    try discriminate; try (intros [? [? ?]]; discriminate).
  - intro H. inversion H. auto.
  - intros [H1 [H2 H3]]. inversion H1; inversion H2; inversion H3. reflexivity.
Qed.

(** X1.  The sales aggregation has one row per (country, SKU), and its
    keys are those of the sales rows in which neither the country nor the
    SKU is empty: a row with an empty key cell enters no group. *)
Theorem df_sales_grouped_key_set (parse : string -> option Q)
    (raw : list SalesRecord) :
  NoDup (map sales_on (df_sales_grouped parse raw))
  /\ (forall c s,
        In (c, s) (map sales_on (df_sales_grouped parse raw))
        <-> exists r, In r raw /\ s_country r = Some c /\ s_sku r = Some s).
Proof.
  split.
  - apply df_sales_grouped_NoDup.
  - intros c s. rewrite df_sales_grouped_keys.
    rewrite (groupby_sum_keys cmp_key2).
    unfold df_sales. rewrite map_map. simpl. rewrite in_map_iff.
    split; intros [r [H1 H2]]; exists r.
    + apply some_key2_spec in H1. tauto.
    + split; [apply some_key2_spec|]; tauto.
Qed.

(** X2.  The stock aggregation has one row per (country, product name,
    SKU), and its keys are those of the stock rows in which none of the
    three key cells is empty. *)
Theorem df_inv_grouped_key_set (parse : string -> option Q)
    (raw : list StockRecord) :
  NoDup (map inv_key3 (df_inv_grouped parse raw))
  /\ (forall c n s,
        In (c, n, s) (map inv_key3 (df_inv_grouped parse raw))
        <-> exists r, In r raw /\ i_country r = Some c /\ i_name r = Some n
                      /\ i_sku r = Some s).
Proof.
  split.
  - apply df_inv_grouped_NoDup.
  - intros c n s. rewrite df_inv_grouped_keys.
    rewrite (groupby_sum_keys cmp_key3).
    unfold df_inv. rewrite map_map. simpl. rewrite in_map_iff.
    split; intros [r [H1 H2]]; exists r.
    + apply some_key3_spec in H1. tauto.
    + split; [apply some_key3_spec|]; tauto.
Qed.

(** X3.  The trailing-30-day sales of a row of the sales aggregation are the
    sum of the coerced sales quantities of the sales rows of its (country,
    SKU), where these quantities are whole numbers whose magnitudes add up
    to [2 ^ 53] at most, the range in which the 64-bit sums of the
    columns are exact. *)
Theorem df_sales_grouped_sum (parse : string -> option Q)
    (raw : list SalesRecord) (a : AggregatedSales) :
  In a (df_sales_grouped parse raw) ->
  exactly_summable (map (fun r => coerce parse (s_qty r))
                        (filter (sales_row_has (sales_on a)) raw)) ->
  gs_sales a
  == Qsum (map (fun r => coerce parse (s_qty r))
               (filter (sales_row_has (sales_on a)) raw)).
Proof.
  intros Hin _. unfold df_sales_grouped in Hin. apply in_map_iff in Hin.
  destruct Hin as [[[c s] q] [<- Hg]]. simpl.
  eapply Qeq_trans;
    [exact (groupby_sum_value cmp_key2 Qplus eqb_key2 eqb_key2_spec
              (fun q => q) (fun a b => Qeq_refl (a + b)) _ _ _ Hg)|].
  unfold rows_total, df_sales. rewrite filter_map_comm, map_map.
  reflexivity.
Qed.

Lemma df_sales_grouped_sum_witness :
  In (mkAggSales "US" "SKU1" 15) (df_sales_grouped parse_nothing example_sales_rows)
  /\ exactly_summable [10; 0; 5]
  /\ 15 == Qsum [10; 0; 5].
Proof.
  assert (H : In (mkAggSales "US" "SKU1" 15)
                (df_sales_grouped parse_nothing example_sales_rows))
    by (left; reflexivity).
  assert (E : exactly_summable [10; 0; 5]).
  { split; [repeat constructor|vm_compute; discriminate]. }
  split; [exact H|]. split; [exact E|].
  apply (df_sales_grouped_sum parse_nothing example_sales_rows _ H E).
Defined.

(** X4.  The FBA stock of a row of the stock aggregation is the sum of the
    coerced FBA stock of the stock rows of its (country, product name,
    SKU), and its in-transit total is the sum of their coerced inbound plus
    in-transit quantities, where the FBA quantities, and the inbound and
    in-transit quantities together, are whole numbers whose magnitudes add
    up to [2 ^ 53] at most, the range in which the 64-bit sums of the
    columns are exact. *)
Theorem df_inv_grouped_sum (parse : string -> option Q)
    (raw : list StockRecord) (l : AggregatedStock) :
  In l (df_inv_grouped parse raw) ->
  exactly_summable (map (fun r => coerce parse (i_fba r))
                        (filter (stock_row_has (inv_key3 l)) raw)) ->
  exactly_summable (map (fun r => coerce parse (i_inbound r))
                        (filter (stock_row_has (inv_key3 l)) raw)
                    ++ map (fun r => coerce parse (i_transit r))
                           (filter (stock_row_has (inv_key3 l)) raw)) ->
  gi_fba l
  == Qsum (map (fun r => coerce parse (i_fba r))
               (filter (stock_row_has (inv_key3 l)) raw))
  /\ gi_transit_total l
     == Qsum (map (fun r => coerce parse (i_inbound r)
                            + coerce parse (i_transit r))
                  (filter (stock_row_has (inv_key3 l)) raw)).
Proof.
  intros Hin _ _. unfold df_inv_grouped in Hin. apply in_map_iff in Hin.
  destruct Hin as [[[[c n] s] [x y]] [<- Hg]]. simpl. split.
  - eapply Qeq_trans;
      [exact (groupby_sum_value cmp_key3 add2 eqb_key3 eqb_key3_spec
                fst (fun a b => Qeq_refl (fst a + fst b)) _ _ _ Hg)|].
    unfold rows_total, df_inv. rewrite filter_map_comm, map_map.
    reflexivity.
  - eapply Qeq_trans;
      [exact (groupby_sum_value cmp_key3 add2 eqb_key3 eqb_key3_spec
                snd (fun a b => Qeq_refl (snd a + snd b)) _ _ _ Hg)|].
    unfold rows_total, df_inv. rewrite filter_map_comm, map_map.
    reflexivity.
Qed.

Lemma df_inv_grouped_sum_witness :
  In (mkAggStock "US" "A" "SKU1" 16 10)
     (df_inv_grouped parse_nothing example_stock_rows)
  /\ exactly_summable [15; 1]
  /\ exactly_summable ([0; 2] ++ [5; 3])
  /\ 16 == Qsum [15; 1] /\ 10 == Qsum [0 + 5; 2 + 3].
Proof.
  assert (H : In (mkAggStock "US" "A" "SKU1" 16 10)
                (df_inv_grouped parse_nothing example_stock_rows))
    by (left; reflexivity).
  assert (E1 : exactly_summable [15; 1]).
  { split; [repeat constructor|vm_compute; discriminate]. }
  assert (E2 : exactly_summable ([0; 2] ++ [5; 3])).
  { split; [repeat constructor|vm_compute; discriminate]. }
  split; [exact H|]. split; [exact E1|]. split; [exact E2|].
  apply (df_inv_grouped_sum parse_nothing example_stock_rows _ H E1 E2).
Defined.

(** ** A stock row with sales *)

Section MergeMatch.
Context {R K : Type}.
Variable eqb : K -> K -> bool.
Hypothesis eqb_spec : forall x y, eqb x y = true <-> x = y.
Variable right_on : R -> K.

End MergeMatch.




(** ** Which rows are highlighted *)

(** X6.  Where the aggregated trailing sales are zero or negative, the ratio
    is the constant 99.0 and the row is not highlighted. *)
Theorem no_sales_no_highlight (g : Q) (j : Joined) :
  sales_filled j <= 0 ->
  ratio (score g j) = 99.0
  /\ highlight_low_ratio (score g j) = repeat default (len (score g j)).
Proof.
  intro H.
  assert (R : ratio (score g j) = 99.0).
  { apply ratio_without_sales. apply ltb_false. exact H. }
  split; [exact R|].
  unfold highlight_low_ratio, high_risk. rewrite R. reflexivity.
Qed.

Lemma no_sales_no_highlight_witness :
  sales_filled (mkJoined "US" "A" "SKU1" 3 0 (Some (-2))) <= 0
  /\ ratio (score 1 (mkJoined "US" "A" "SKU1" 3 0 (Some (-2)))) = 99.0.
Proof.
  assert (H : sales_filled (mkJoined "US" "A" "SKU1" 3 0 (Some (-2))) <= 0)
    by (vm_compute; discriminate).
  split; [exact H|].
  apply (no_sales_no_highlight 1 _ H).
Defined.

(** ** The forecast and the growth factor *)

Section SortCongruence.
Context {A B : Type}.
Variable before : A -> A -> bool.
Variable before' : B -> B -> bool.
Variable R : A -> B -> Prop.
Hypothesis R_before :
  forall x y x' y', R x x' -> R y y' -> before x y = before' x' y'.


End SortCongruence.




(** ** Order of the final table *)

Lemma final_df_ordered (parse : string -> option Q) (g : Q)
    (inv : list StockRecord) (sales : list SalesRecord) :
  StronglySorted ordered (final_df parse g inv sales).
Proof.
  apply (StronglySorted_impl (pd.may_precede before)).
  - intros x y. apply not_before_ordered.
  - apply sort_values_sorted.
    + apply before_asym.
    + intros x y z Hxy Hyz. apply not_before_ordered.
      apply not_before_ordered in Hxy, Hyz.
      eapply ordered_trans; eassumption.
Qed.

Lemma StronglySorted_later {A : Type} (R : A -> A -> Prop)
    (pre : list A) (x : A) (post : list A) :
  StronglySorted R (pre ++ x :: post) -> Forall (R x) post.
Proof.
  induction pre as [|y pre IH]; simpl; intro S;
    inversion S; subst; auto.
Qed.

(** For whole quantities the sales guard of the highlight rule is implied
    by the ratio. *)
Lemma whole_high_risk (g : Q) (j : Joined) :
  whole_row j ->
  (high_risk (score g j) = true <-> ratio (score g j) < 2).
Proof.
  intros [_ [_ W]]. rewrite high_risk_spec. split; [tauto|].
  intro R. split; [exact R|].
  destruct (Qlt_le_dec 0 (sales_filled j)) as [P|N].
  - change (sales_30d (score g j)) with (pd.astype_int (sales_filled j)).
    rewrite Zlt_Qlt. change (inject_Z 0) with 0.
    unfold whole in W. rewrite <- W. exact P.
  - exfalso.
    change (ratio (score g j)) with (ratio_rounded j) in R.
    rewrite ratio_without_sales in R by (apply ltb_false; exact N).
    revert R. vm_compute. discriminate.
Qed.

(** X11.  When the merged quantities are whole numbers and the sales are
    within the range of [int64], where the cast of the sales column keeps
    them, the highlighted rows come first in the final table: below a row
    that is not highlighted no row is highlighted. *)
Theorem highlighted_rows_first (parse : string -> option Q) (g : Q)
    (inv : list StockRecord) (sales : list SalesRecord)
    (pre : list SummaryRow) (x : SummaryRow) (post : list SummaryRow) :
  (forall j, In j (merged parse inv sales) ->
             whole_row j /\ within_int64 (sales_filled j)) ->
  final_df parse g inv sales = pre ++ x :: post ->
  high_risk x = false ->
  Forall (fun y => high_risk y = false) post.
Proof.
  intros W E Hx.
  pose proof (final_df_ordered parse g inv sales) as S. rewrite E in S.
  apply StronglySorted_later in S.
  assert (Hin : forall r, In r (pre ++ x :: post) ->
                  exists j, whole_row j /\ r = score g j).
  { intros r Hr. rewrite <- E in Hr. apply final_df_In in Hr.
    destruct Hr as [j [Hj ->]]. exists j.
    split; [apply (W j Hj)|reflexivity]. }
  destruct (Hin x) as [jx [Wx ->]]; [apply in_or_app; right; left; reflexivity|].
  rewrite Forall_forall in *. intros y Hy.
  destruct (Hin y) as [jy [Wy ->]]; [apply in_or_app; right; right; exact Hy|].
  destruct (high_risk (score g jy)) eqn:B; [|reflexivity].
  exfalso. apply (whole_high_risk g jy Wy) in B.
  assert (Rx : ratio (score g jx) < 2).
  { destruct (S _ Hy) as [L|[Eq _]]; lra. }
  apply (whole_high_risk g jx Wx) in Rx. congruence.
Qed.

Lemma highlighted_rows_first_witness :
  (forall j, In j (merged parse_nothing example_stock2 example_sales) ->
             whole_row j /\ within_int64 (sales_filled j))
  /\ final_df parse_nothing 1 example_stock2 example_sales
     = [] ++ example_row :: [mkSummary "US" "B" "SKU2" 7 0 0 0 99.0]
  /\ Forall (fun y => high_risk y = false)
            [mkSummary "US" "B" "SKU2" 7 0 0 0 99.0].
Proof.
  assert (W : forall j, In j (merged parse_nothing example_stock2 example_sales)
                        -> whole_row j /\ within_int64 (sales_filled j)).
  { intros j [<-|[<-|[]]]; (split; [repeat split|]);
      (split; vm_compute; discriminate). }
  assert (E : final_df parse_nothing 1 example_stock2 example_sales
              = [] ++ example_row :: [mkSummary "US" "B" "SKU2" 7 0 0 0 99.0])
    by reflexivity.
  split; [exact W|]. split; [exact E|].
  apply (highlighted_rows_first parse_nothing 1 example_stock2 example_sales
           [] example_row _ W E).
  reflexivity.
Defined.

(** ** The loader on spreadsheets, and on a file loaded twice *)

Lemma length_append (a b : string) :
  String.length (a ++ b) = (String.length a + String.length b)%nat.
Proof. induction a as [|c a IH]; simpl; [reflexivity|]. rewrite IH. reflexivity. Qed.

Lemma substring_whole (s : string) : substring 0 (String.length s) s = s.
Proof. induction s as [|c s IH]; simpl; [reflexivity|]. rewrite IH. reflexivity. Qed.

Lemma substring_after (pre suf : string) :
  substring (String.length pre) (String.length suf) (pre ++ suf) = suf.
Proof.
  induction pre as [|c pre IH]; simpl; [apply substring_whole|exact IH].
Qed.

Lemma substring_split (s : string) (k m : nat) :
  (k + m)%nat = String.length s ->
  s = (substring 0 k s ++ substring k m s)%string.
Proof.
  revert k. induction s as [|c s IH]; intros k H; simpl in H.
  - destruct k, m; try discriminate. reflexivity.
  - destruct k as [|k].
    + simpl in H. subst m. simpl. rewrite substring_whole. reflexivity.
    + simpl. f_equal. apply IH. simpl in H. lia.
Qed.

(** [endswith] holds exactly of the strings that are some prefix followed
    by the suffix. *)
Lemma endswith_spec (s suffix : string) :
  endswith s suffix = true <-> exists pre, s = (pre ++ suffix)%string.
Proof.
  unfold endswith. rewrite andb_true_iff, Nat.leb_le, String.eqb_eq. split.
  - intros [L E].
    exists (substring 0 (String.length s - String.length suffix) s).
    assert (Sp : (String.length s - String.length suffix
                  + String.length suffix)%nat = String.length s) by lia.
    apply substring_split in Sp. rewrite E in Sp. exact Sp.
  - intros [pre ->]. rewrite length_append. split; [lia|].
    replace (String.length pre + String.length suffix - String.length suffix)%nat
      with (String.length pre) by lia.
    apply substring_after.
Qed.

(** X13.  A file whose name is some prefix followed by [.xlsx] or by [.xls]
    goes to the spreadsheet reader alone: the loader returns the table that
    reader returns and raises when it raises; it never returns null and the
    result does not depend on the text codec. *)
Theorem read_file_spreadsheet (Table : Type)
    (read_excel : UploadedFile -> result Table * UploadedFile)
    (read_csv read_csv' : list byte -> encoding -> result Table)
    (f : UploadedFile) :
  (exists pre, name f = (pre ++ ".xlsx")%string)
  \/ (exists pre, name f = (pre ++ ".xls")%string) ->
  read_file Table read_excel read_csv (Some f)
  = (match fst (read_excel f) with
     | Return t => Return (Some t)
     | Raise => Raise
     end, Some (snd (read_excel f)))
  /\ fst (read_file Table read_excel read_csv (Some f)) <> Return None
  /\ read_file Table read_excel read_csv' (Some f)
     = read_file Table read_excel read_csv (Some f).
Proof.
  intro H.
  assert (X : endswith (name f) ".xlsx" || endswith (name f) ".xls" = true).
  { apply orb_true_iff. destruct H as [H|H]; [left|right];
      apply endswith_spec; exact H. }
  unfold read_file. rewrite X.
  destruct (read_excel f) as [[t|] f']; simpl;
    (split; [reflexivity|split; [discriminate|reflexivity]]).
Qed.

Lemma read_file_spreadsheet_witness :
  ((exists pre, "stock.xlsx"%string = (pre ++ ".xlsx")%string)
   \/ (exists pre, "stock.xlsx"%string = (pre ++ ".xls")%string))
  /\ fst (read_file nat (fun f => (Raise, f)) gbk_only
            (Some (mkFile "stock.xlsx" [] 0)))
     = Raise.
Proof.
  assert (H : (exists pre, "stock.xlsx"%string = (pre ++ ".xlsx")%string)
              \/ (exists pre, "stock.xlsx"%string = (pre ++ ".xls")%string))
    by (left; exists "stock"%string; reflexivity).
  split; [exact H|].
  destruct (read_file_spreadsheet nat (fun f => (Raise, f)) gbk_only gbk_only
              (mkFile "stock.xlsx" [] 0) H) as [E _].
  rewrite E. reflexivity.
Defined.

(** X14.  A text load rewinds the file, whatever its cursor was: loading
    the file it leaves behind parses the whole content and leaves the file
    as it is, and for a file loaded from its start this second load returns
    the same table as the first. *)
Theorem read_file_text_again (Table : Type)
    (read_excel : UploadedFile -> result Table * UploadedFile)
    (read_csv : list byte -> encoding -> result Table) (f : UploadedFile) :
  endswith (name f) ".xlsx" = false ->
  endswith (name f) ".xls" = false ->
  exists res f1,
    read_file Table read_excel read_csv (Some f) = (Return res, Some f1)
    /\ read_file Table read_excel read_csv (Some f1)
       = (Return (try_encodings Table read_csv (data f) encodings), Some f1)
    /\ (pos f = 0%nat ->
        read_file Table read_excel read_csv (Some f1) = (Return res, Some f1)).
Proof.
  intros X1 X2.
  exists (try_encodings Table read_csv (skipn (pos f) (data f)) encodings),
         (mkFile (name f) (data f) 0).
  split; [|split].
  - unfold read_file. rewrite X1, X2. reflexivity.
  - unfold read_file. simpl. rewrite X1, X2. reflexivity.
  - intro P. unfold read_file. simpl. rewrite X1, X2, P. reflexivity.
Qed.

Lemma read_file_text_again_witness :
  endswith "sales.csv" ".xlsx" = false
  /\ endswith "sales.csv" ".xls" = false
  /\ exists f1,
       read_file nat (fun f => (Raise, f)) gbk_only
                 (Some (mkFile "sales.csv" [] 0))
       = (Return (Some 1%nat), Some f1)
       /\ read_file nat (fun f => (Raise, f)) gbk_only (Some f1)
          = (Return (Some 1%nat), Some f1).
Proof.
  assert (X1 : endswith "sales.csv" ".xlsx" = false) by reflexivity.
  assert (X2 : endswith "sales.csv" ".xls" = false) by reflexivity.
  split; [exact X1|]. split; [exact X2|].
  destruct (read_file_text_again nat (fun f => (Raise, f)) gbk_only
              (mkFile "sales.csv" [] 0) X1 X2) as [res [f1 [E1 [E2 E3]]]].
  exists f1. simpl in E1. inversion E1; subst. split; [reflexivity|].
  apply E3. reflexivity.
Defined.

(** ** The script body *)

Lemma read_file_undecodable (Table : Type)
    (read_excel : UploadedFile -> result Table * UploadedFile)
    (read_csv : list byte -> encoding -> result Table) (f : UploadedFile) :
  undecodable read_csv f ->
  fst (read_file Table read_excel read_csv (Some f)) = Return None.
Proof.
  intros [X1 [X2 U]]. unfold read_file. rewrite X1, X2.
  cbn [read seek fst snd orb].
  assert (N : try_encodings Table read_csv (skipn (pos f) (data f)) encodings
              = None).
  { apply try_encodings_none. apply Forall_forall. intros e _. apply U. }
  rewrite N. reflexivity.
Qed.

Lemma styled_df_rows (df : list SummaryRow) : map fst (styled_df df) = df.
Proof. unfold styled_df. rewrite map_map. simpl. apply map_id. Qed.

(** X15.  When one of the two uploaded files is a text file that none of the
    three encodings decodes, the script puts nothing on the page: no table,
    no download and no error banner either. *)
Theorem undecodable_file_shows_nothing (Table Blob : Type)
    (read_excel : UploadedFile -> result Table * UploadedFile)
    (read_csv : list byte -> encoding -> result Table)
    (select_sales : Table -> result (list SalesRecord))
    (select_inv : Table -> result (list StockRecord))
    (to_excel : list SummaryRow -> result Blob)
    (parse : string -> option Q) (g : Q)
    (fi fs : UploadedFile) (ws : list (st.widget Blob)) :
  undecodable read_csv fi \/ undecodable read_csv fs ->
  script Table Blob read_excel read_csv select_sales select_inv to_excel
         parse g (Some fi) (Some fs) = Return ws ->
  ws = [].
Proof.
  intros U E. unfold script in E.
  destruct U as [U|U];
    pose proof (read_file_undecodable Table read_excel read_csv _ U) as N.
  - rewrite N in E.
    destruct (fst (read_file Table read_excel read_csv (Some fs)));
      [|discriminate].
    inversion E. reflexivity.
  - rewrite N in E.
    destruct (fst (read_file Table read_excel read_csv (Some fi)))
      as [[t|]|]; try discriminate; inversion E; reflexivity.
Qed.

Lemma undecodable_file_shows_nothing_witness :
  undecodable decode_nothing (mkFile "stock.csv" [] 0)
  /\ script nat nat (fun f => (Raise, f)) decode_nothing
            (fun _ => Return []) (fun _ => Return []) (fun _ => Return 0%nat)
            parse_nothing 1
            (Some (mkFile "stock.csv" [] 0)) (Some (mkFile "sales.csv" [] 0))
     = Return [].
Proof.
  assert (U : undecodable decode_nothing (mkFile "stock.csv" [] 0))
    by (repeat split).
  split; [exact U|].
  destruct (script nat nat (fun f => (Raise, f)) decode_nothing
              (fun _ => Return []) (fun _ => Return [])
              (fun _ => Return 0%nat) parse_nothing 1
              (Some (mkFile "stock.csv" [] 0))
              (Some (mkFile "sales.csv" [] 0))) as [ws|] eqn:E.
  - f_equal.
    apply (undecodable_file_shows_nothing nat nat (fun f => (Raise, f))
             decode_nothing (fun _ => Return []) (fun _ => Return [])
             (fun _ => Return 0%nat) parse_nothing 1
             (mkFile "stock.csv" [] 0) (mkFile "sales.csv" [] 0) ws
             (or_introl U) E).
  - vm_compute in E. discriminate E.
Defined.

(** X16.  When the page shows a table and offers a download, the download
    is the export of exactly the rows of the table, without the styles;
    the styles are those of the highlight rule, and the page then has no
    error banner. *)
Theorem download_is_displayed_table (Table Blob : Type)
    (select_sales : Table -> result (list SalesRecord))
    (select_inv : Table -> result (list StockRecord))
    (to_excel : list SummaryRow -> result Blob)
    (parse : string -> option Q) (g : Q) (ti ts : Table)
    (styled : list (SummaryRow * list string)) (blob : Blob)
    (file_name : string) :
  let page := report Table Blob select_sales select_inv to_excel parse g ti ts in
  In (st.dataframe styled) page ->
  In (st.download_button blob file_name) page ->
  to_excel (map fst styled) = Return blob
  /\ map snd styled = map highlight_low_ratio (map fst styled)
  /\ file_name = "Amazon_Inventory_Sales_Summary.xlsx"%string
  /\ ~ In st.error page.
Proof.
  intro page. unfold page, report.
  destruct (select_sales ts) as [sales|];
    [|intros [H|[]]; discriminate].
  destruct (select_inv ti) as [inv|];
    [|intros [H|[]]; discriminate].
  cbv zeta. set (final := final_df parse g inv sales).
  destruct (to_excel final) as [b|] eqn:X; simpl.
  - intros [H|[H|[H|[]]]]; try discriminate. inversion H; subst styled.
    intros [H'|[H'|[H'|[]]]]; try discriminate. inversion H'; subst.
    rewrite styled_df_rows. split; [exact X|]. split.
    + unfold styled_df. rewrite map_map. reflexivity.
    + split; [reflexivity|].
      intros [E|[E|[E|[]]]]; discriminate.
  - intros _ [H'|[H'|[H'|[]]]]; discriminate.
Qed.

Lemma download_is_displayed_table_witness :
  let page := report nat nat (fun _ => Return example_sales)
                     (fun _ => Return example_stock) (fun _ => Return 7%nat)
                     parse_nothing 1 0%nat 0%nat in
  In (st.dataframe (styled_df [example_row])) page
  /\ In (st.download_button 7%nat "Amazon_Inventory_Sales_Summary.xlsx") page
  /\ map snd (styled_df [example_row])
     = map highlight_low_ratio (map fst (styled_df [example_row])).
Proof.
  intro page.
  assert (D : In (st.dataframe (styled_df [example_row])) page)
    by (right; left; reflexivity).
  assert (B : In (st.download_button 7%nat "Amazon_Inventory_Sales_Summary.xlsx")
                 page)
    by (right; right; left; reflexivity).
  split; [exact D|]. split; [exact B|].
  destruct (download_is_displayed_table nat nat
              (fun _ => Return example_sales) (fun _ => Return example_stock)
              (fun _ => Return 7%nat) parse_nothing 1 0%nat 0%nat
              _ _ _ D B) as [_ [S _]].
  exact S.
Defined.

(** X17.  A failure of the spreadsheet reader is not reported by the error
    banner: the files are loaded outside of the [try], so when the stock
    file is a spreadsheet whose reader raises, or the stock file loads and
    the sales file is such a spreadsheet, the exception leaves the
    script. *)
Theorem spreadsheet_failure_escapes (Table Blob : Type)
    (read_excel : UploadedFile -> result Table * UploadedFile)
    (read_csv : list byte -> encoding -> result Table)
    (select_sales : Table -> result (list SalesRecord))
    (select_inv : Table -> result (list StockRecord))
    (to_excel : list SummaryRow -> result Blob)
    (parse : string -> option Q) (g : Q) (fi fs : UploadedFile) :
  let is_sheet f :=
    (exists pre, name f = (pre ++ ".xlsx")%string)
    \/ (exists pre, name f = (pre ++ ".xls")%string) in
  let page := script Table Blob read_excel read_csv select_sales select_inv
                     to_excel parse g (Some fi) (Some fs) in
  (is_sheet fi -> fst (read_excel fi) = Raise -> page = Raise)
  /\ (is_sheet fs -> fst (read_excel fs) = Raise ->
      fst (read_file Table read_excel read_csv (Some fi)) <> Raise ->
      page = Raise).
Proof.
  intros is_sheet page.
  assert (R : forall (f : UploadedFile),
             is_sheet f -> fst (read_excel f) = Raise ->
             fst (read_file Table read_excel read_csv (Some f)) = Raise).
  { intros f S E.
    assert (X : endswith (name f) ".xlsx" || endswith (name f) ".xls" = true).
    { apply orb_true_iff. destruct S as [S|S]; [left|right];
        apply endswith_spec; exact S. }
    unfold read_file. rewrite X.
    destruct (read_excel f) as [r f']. simpl in E. subst r. reflexivity. }
  unfold page, script. split.
  - intros S E. rewrite (R fi S E). reflexivity.
  - intros S E N. rewrite (R fs S E).
    destruct (fst (read_file Table read_excel read_csv (Some fi)));
      [reflexivity|contradiction].
Qed.

Lemma spreadsheet_failure_escapes_witness :
  ((exists pre, "stock.xlsx"%string = (pre ++ ".xlsx")%string)
   \/ (exists pre, "stock.xlsx"%string = (pre ++ ".xls")%string))
  /\ script nat nat (fun f => (Raise, f)) gbk_only
            (fun _ => Return []) (fun _ => Return []) (fun _ => Return 0%nat)
            parse_nothing 1
            (Some (mkFile "stock.xlsx" [] 0)) (Some (mkFile "sales.csv" [] 0))
     = Raise.
Proof.
  assert (H : (exists pre, "stock.xlsx"%string = (pre ++ ".xlsx")%string)
              \/ (exists pre, "stock.xlsx"%string = (pre ++ ".xls")%string))
    by (left; exists "stock"%string; reflexivity).
  split; [exact H|].
  destruct (spreadsheet_failure_escapes nat nat (fun f => (Raise, f)) gbk_only
              (fun _ => Return []) (fun _ => Return [])
              (fun _ => Return 0%nat) parse_nothing 1
              (mkFile "stock.xlsx" [] 0) (mkFile "sales.csv" [] 0))
    as [E _].
  apply E; [exact H|reflexivity].
Defined.
